(** * Topology model of [mininet/topo.py]: shallow embedding and properties

    The Python classes [MultiGraph] and [Topo] are embedded as records with
    explicit state passing.  Python dictionaries that are only looked up,
    assigned and measured ([node_info], [link_info], [ports]) are finite maps;
    the dictionary of the graph store, which is also enumerated, is an
    insertion-ordered association list.  Python exceptions are modelled by a
    state-and-error monad in which the mutations made before a [raise]
    survive it. *)

From Stdlib Require Import ZArith NArith Ascii String List Permutation Lia.
From stdpp Require Import base option gmap strings list fin_maps pretty.

Local Open Scope string_scope.
Local Open Scope Z_scope.
Local Open Scope list_scope.

(** ** Python values and exceptions *)

(** Values stored in option dictionaries. *)
Inductive value : Type :=
  | VNone
  | VBool (b : bool)
  | VInt (z : Z)
  | VStr (s : string).

#[global] Instance value_eq_dec : EqDecision value.
Proof. solve_decision. Defined.

(** Python truthiness of a value. *)
Definition truthy (v : value) : bool :=
  match v with
  | VNone => false
  | VBool b => b
  | VInt z => negb (z =? 0)
  | VStr s => negb (String.eqb s "")
  end.

(** An option dictionary ([**opts], [hopts], ...). *)
Abbreviation opts_t := (gmap string value).

(** [not d] for a dictionary [d]. *)
Definition dict_is_empty (d : opts_t) : bool := bool_decide (d = ∅).

Inductive exn : Type :=
  | KeyError
  | TypeError
  | AssertionError.

Inductive res (A : Type) : Type :=
  | Ok (a : A)
  | Raise (e : exn).
Arguments Ok {A} a.
Arguments Raise {A} e.

(** ** Ordering of names *)

Module Natural.

(** Modelled from the spec: [natural] and [naturalSeq] are imported from
    [mininet.util], which is not part of the sources.  The spec describes
    the key as the split of a name into alternating non-digit and digit
    runs, compared run by run, digit runs numerically and non-digit runs
    lexicographically.  The split starts and ends with a (possibly empty)
    non-digit run, so runs at the same index have the same kind. *)
Inductive token : Type :=
  | TInt (n : N)
  | TStr (s : string).

Definition is_digit (c : ascii) : bool :=
  let n := N_of_ascii c in (48 <=? n)%N && (n <=? 57)%N.

Definition digit_val (c : ascii) : N := (N_of_ascii c - 48)%N.

(** [split_runs s cur num] scans [s]; [cur] is the non-digit run being
    read (reversed) when [num] is [None], and [num] is the value of the
    digit run being read otherwise. *)
Fixpoint split_runs (s : string) (cur : list ascii) (num : option N)
  : list token :=
  match s with
  | EmptyString =>
      match num with
      | None => [TStr (string_of_list_ascii (rev cur))]
      | Some n => [TInt n; TStr ""]
      end
  | String c s' =>
      if is_digit c then
        match num with
        | None =>
            TStr (string_of_list_ascii (rev cur))
              :: split_runs s' [] (Some (digit_val c))
        | Some n => split_runs s' [] (Some (10 * n + digit_val c)%N)
        end
      else
        match num with
        | None => split_runs s' (c :: cur) None
        | Some n => TInt n :: split_runs s' [c] None
        end
  end.

Definition natural (text : string) : list token := split_runs text [] None.

(** Order of two runs; a number is below a string, as in Python 2 (never
    exercised by keys of [natural], whose runs alternate). *)
Definition token_compare (x y : token) : comparison :=
  match x, y with
  | TInt a, TInt b => N.compare a b
  | TStr a, TStr b => String.compare a b
  | TInt _, TStr _ => Lt
  | TStr _, TInt _ => Gt
  end.

(** Python's order on lists: lexicographic, a proper prefix is smaller. *)
Fixpoint seq_compare {A : Type} (cmp : A -> A -> comparison)
  (k1 k2 : list A) : comparison :=
  match k1, k2 with
  | [], [] => Eq
  | [], _ :: _ => Lt
  | _ :: _, [] => Gt
  | x :: k1', y :: k2' =>
      match cmp x y with
      | Eq => seq_compare cmp k1' k2'
      | c => c
      end
  end.

Definition key_compare : list token -> list token -> comparison :=
  seq_compare token_compare.

(** [natural a < natural b] *)
Definition lt (a b : string) : bool :=
  match key_compare (natural a) (natural b) with
  | Lt => true
  | _ => false
  end.

(** [naturalSeq t = [natural x for x in t]], for a pair [t]. *)
Definition naturalSeq (t : string * string) : list (list token) :=
  [natural (fst t); natural (snd t)].

Definition seq_lt (s t : string * string) : bool :=
  match seq_compare key_compare (naturalSeq s) (naturalSeq t) with
  | Lt => true
  | _ => false
  end.

End Natural.

(** Python's built-in [sorted(items, key=...)]: a stable sort, given by the
    strict order [ltb] on the keys.  An element is inserted in front of the
    first element that is not strictly smaller, so equal keys keep their
    input order. *)
Fixpoint sorted_insert {A : Type} (ltb : A -> A -> bool) (x : A) (l : list A)
  : list A :=
  match l with
  | [] => [x]
  | y :: l' => if ltb y x then y :: sorted_insert ltb x l' else x :: l
  end.

Definition py_sorted {A : Type} (ltb : A -> A -> bool) (items : list A)
  : list A :=
  fold_right (sorted_insert ltb) [] items.

(** Unpacking of a two-element list, [x, y = l]. *)
Definition unpack2 {A : Type} (l : list A) (default : A * A) : A * A :=
  match l with
  | [x; y] => (x, y)
  | _ => default
  end.

(** ** The graph store *)

Module MultiGraph.

(** [self.data]: node name to adjacency list, in insertion order (the
    order of a Python 3.7 dictionary; the properties below count edges
    and do not depend on it). *)
Definition t : Type := list (string * list string).

Definition init : t := [].

Fixpoint contains (node : string) (d : t) : bool :=
  match d with
  | [] => false
  | (k, _) :: d' => if String.eqb k node then true else contains node d'
  end.

(** [self.data[node]] *)
Fixpoint getitem (node : string) (d : t) : option (list string) :=
  match d with
  | [] => None
  | (k, v) :: d' => if String.eqb k node then Some v else getitem node d'
  end.

(** [self.data.setdefault(node, [])] *)
Definition add_node (node : string) (d : t) : t :=
  if contains node d then d else d ++ [(node, [])].

(** [self.data[src].append(dest)]; [None] stands for the [KeyError] of
    the lookup. *)
Fixpoint append_to (src dest : string) (d : t) : option t :=
  match d with
  | [] => None
  | (k, v) :: d' =>
      if String.eqb k src then Some ((k, v ++ [dest]) :: d')
      else option_map (cons (k, v)) (append_to src dest d')
  end.

(** [sorted((src, dest))]: Python's own order on strings. *)
Definition sorted_pair (src dest : string) : string * string :=
  unpack2 (py_sorted String.ltb [src; dest]) (src, dest).

Definition add_edge (src dest : string) (d : t) : res t :=
  let '(src, dest) := sorted_pair src dest in
  let d := add_node src d in
  let d := add_node dest d in
  match append_to src dest d with
  | Some d' => Ok d'
  | None => Raise KeyError
  end.

Definition nodes (d : t) : list string := map fst d.

Definition edges (d : t) : list (string * string) :=
  flat_map (fun '(src, adj) => map (fun dest => (src, dest)) adj) d.

End MultiGraph.

(** ** The topology model *)

Module Topo.

Record t : Type := mk {
  g : MultiGraph.t;
  node_info : gmap string (option opts_t);
    (* a node's metadata: a dictionary, or [None] *)
  link_info : gmap (string * string) opts_t;
  hopts : opts_t;
  sopts : opts_t;
  lopts : opts_t;
  lropts : opts_t;
  lsopts : opts_t;
  tpropts : opts_t;
  hiopts : opts_t;
  ports : gmap string (gmap string Z)
    (* ports[src][dst] is port on src that connects to dst *)
}.

(** [Topo.__init__]; a default that is not given is [{}]. *)
Definition init (hopts sopts lopts lropts lsopts tpropts hiopts : opts_t)
  : t :=
  mk MultiGraph.init ∅ ∅ hopts sopts lopts lropts lsopts tpropts hiopts ∅.

Definition set_g (f : MultiGraph.t -> MultiGraph.t) (s : t) : t :=
  mk (f (g s)) (node_info s) (link_info s) (hopts s) (sopts s) (lopts s)
     (lropts s) (lsopts s) (tpropts s) (hiopts s) (ports s).

Definition set_node_info
  (f : gmap string (option opts_t) -> gmap string (option opts_t)) (s : t)
  : t :=
  mk (g s) (f (node_info s)) (link_info s) (hopts s) (sopts s) (lopts s)
     (lropts s) (lsopts s) (tpropts s) (hiopts s) (ports s).

Definition set_link_info
  (f : gmap (string * string) opts_t -> gmap (string * string) opts_t)
  (s : t) : t :=
  mk (g s) (node_info s) (f (link_info s)) (hopts s) (sopts s) (lopts s)
     (lropts s) (lsopts s) (tpropts s) (hiopts s) (ports s).

Definition set_ports
  (f : gmap string (gmap string Z) -> gmap string (gmap string Z)) (s : t)
  : t :=
  mk (g s) (node_info s) (link_info s) (hopts s) (sopts s) (lopts s)
     (lropts s) (lsopts s) (tpropts s) (hiopts s) (f (ports s)).

(** *** Methods as state transformers that may raise

    A method maps the object to the object after the call and either the
    returned value or the exception raised.  What was mutated before an
    exception stays mutated. *)
Definition M (A : Type) : Type := t -> t * res A.

#[global] Instance M_ret : MRet M := fun A a s => (s, Ok a).

#[global] Instance M_bind : MBind M := fun A B k m s =>
  match m s with
  | (s', Ok a) => k a s'
  | (s', Raise e) => (s', Raise e)
  end.

Definition get : M t := fun s => (s, Ok s).
Definition modify (f : t -> t) : M unit := fun s => (f s, Ok tt).
Definition raise {A : Type} (e : exn) : M A := fun s => (s, Raise e).

(** The object after a call, and the outcome of the call. *)
Definition state_of {A : Type} (r : t * res A) : t := fst r.
Definition outcome {A : Type} (r : t * res A) : res A := snd r.

(** [Topo.sorted(items)]: [sorted(items, key=natural)]. *)
Definition sorted (items : list string) : list string :=
  py_sorted Natural.lt items.

(** [src, dst = self.sorted([src, dst])], also
    [tuple(self.sorted([node1, node2]))]. *)
Definition sorted_pair (src dst : string) : string * string :=
  unpack2 (sorted [src; dst]) (src, dst).

(** [addNode]; [opts] is the dictionary that the call binds to [**opts].
    It never holds the keys ["name"] and ["self"]: a call that gives such a
    keyword is a [TypeError] before the body runs. *)
Definition addNode (name : string) (opts : opts_t) : M string :=
  modify (set_g (MultiGraph.add_node name));;
  modify (set_node_info <[name := Some opts]>);;
  mret name.

(** The call [self.addNode(name, flag=True, **opts)]: a keyword given
    twice, or one that names a positional parameter of [addNode], is a
    [TypeError]. *)
Definition addNode_flagged (name flag : string) (opts : opts_t) : M string :=
  match opts !! flag, opts !! "name", opts !! "self" with
  | None, None, None => addNode name (<[flag := VBool true]> opts)
  | _, _, _ => raise TypeError
  end.

(** [if not opts and self.Xopts: opts = self.Xopts] *)
Definition or_default (opts defaults : opts_t) : opts_t :=
  if dict_is_empty opts && negb (dict_is_empty defaults) then defaults
  else opts.

Definition addHost (name : string) (opts : opts_t) : M string :=
  s ← get;
  addNode_flagged name "isHost" (or_default opts (hopts s)).

Definition addSwitch (name : string) (opts : opts_t) : M string :=
  s ← get;
  addNode_flagged name "isSwitch" (or_default opts (sopts s)).

Definition addLegacySwitch (name : string) (opts : opts_t) : M string :=
  s ← get;
  addNode_flagged name "isLegacySwitch" (or_default opts (lsopts s)).

Definition addHostInterface (name : string) (opts : opts_t) : M string :=
  s ← get;
  addNode_flagged name "isHostInterface" (or_default opts (hiopts s)).

Definition addLegacyRouter (name : string) (opts : opts_t) : M string :=
  s ← get;
  addNode_flagged name "isLegacyRouter" (or_default opts (lropts s)).

Definition addTransitPortalRouter (name : string) (opts : opts_t)
  : M string :=
  s ← get;
  addNode_flagged name "isTransitPortalRouter" (or_default opts (tpropts s)).

(** [info and info.get(flag, False)], as the condition its callers use
    it for: [info] is [None], or a dictionary, which is false when it is
    empty. *)
Definition info_flag (flag : string) (info : option opts_t) : bool :=
  match info with
  | None => false
  | Some d =>
      negb (dict_is_empty d) && truthy (default (VBool false) (d !! flag))
  end.

(** [info = self.node_info[n]; return info and info.get(flag, False)] *)
Definition role_flag (flag n : string) : M bool :=
  s ← get;
  match node_info s !! n with
  | None => raise KeyError
  | Some info => mret (info_flag flag info)
  end.

Definition isHost : string -> M bool := role_flag "isHost".
Definition isSwitch : string -> M bool := role_flag "isSwitch".
Definition isLegacySwitch : string -> M bool := role_flag "isLegacySwitch".
Definition isLegacyRouter : string -> M bool := role_flag "isLegacyRouter".
Definition isTransitPortalRouter : string -> M bool :=
  role_flag "isTransitPortalRouter".
Definition isHostInterface : string -> M bool :=
  role_flag "isHostInterface".

(** [self.ports.setdefault(n, {})] *)
Definition ports_ensure (n : string) (p : gmap string (gmap string Z))
  : gmap string (gmap string Z) :=
  match p !! n with
  | Some _ => p
  | None => <[n := ∅]> p
  end.

Definition ports_setdefault (n : string) : M unit :=
  modify (set_ports (ports_ensure n)).

(** [len(self.ports[n])] *)
Definition ports_len (n : string) : M Z :=
  s ← get;
  match ports s !! n with
  | Some tbl => mret (Z.of_nat (size tbl))
  | None => raise KeyError
  end.

(** [self.ports[a][b] = p] *)
Definition ports_setitem (a b : string) (p : Z) : M unit :=
  s ← get;
  match ports s !! a with
  | Some tbl => modify (set_ports <[a := <[b := p]> tbl]>)
  | None => raise KeyError
  end.

Definition addPort (src dst : string) (sport dport : option Z) : M unit :=
  ports_setdefault src;;
  ports_setdefault dst;;
  src_sw ← isSwitch src;
  let src_base := if (src_sw : bool) then 1 else 0 in
  dst_sw ← isSwitch dst;
  let dst_base := if (dst_sw : bool) then 1 else 0 in
  sport ← match sport with
          | None => n ← ports_len src; mret (n + src_base)
          | Some p => mret p
          end;
  dport ← match dport with
          | None => n ← ports_len dst; mret (n + dst_base)
          | Some p => mret p
          end;
  ports_setitem src dst sport;;
  ports_setitem dst src dport.

(** [self.g.add_edge(src, dest)] *)
Definition g_add_edge (src dest : string) : M unit :=
  s ← get;
  match MultiGraph.add_edge src dest (g s) with
  | Ok d => modify (set_g (fun _ => d))
  | Raise e => raise e
  end.

Definition addLink (node1 node2 : string) (port1 port2 : option Z)
  (opts : opts_t) : M (string * string) :=
  s ← get;
  let opts := or_default opts (lopts s) in
  addPort node1 node2 port1 port2;;
  let key := sorted_pair node1 node2 in
  modify (set_link_info <[key := opts]>);;
  g_add_edge (fst key) (snd key);;
  mret key.

Definition nodes (sort : bool) : M (list string) :=
  s ← get;
  if sort then mret (sorted (MultiGraph.nodes (g s)))
  else mret (MultiGraph.nodes (g s)).

(** [[n for n in l if pred(n)]] *)
Fixpoint filterM (pred : string -> M bool) (l : list string)
  : M (list string) :=
  match l with
  | [] => mret []
  | n :: l' =>
      b ← pred n;
      r ← filterM pred l';
      mret (if (b : bool) then n :: r else r)
  end.

Definition switches (sort : bool) : M (list string) :=
  l ← nodes sort; filterM isSwitch l.
Definition legacySwitches (sort : bool) : M (list string) :=
  l ← nodes sort; filterM isLegacySwitch l.
Definition legacyRouters (sort : bool) : M (list string) :=
  l ← nodes sort; filterM isLegacyRouter l.
Definition transitPortalRouters (sort : bool) : M (list string) :=
  l ← nodes sort; filterM isTransitPortalRouter l.
Definition hostInterfaces (sort : bool) : M (list string) :=
  l ← nodes sort; filterM isHostInterface l.
Definition hosts (sort : bool) : M (list string) :=
  l ← nodes sort; filterM isHost l.

Definition links (sort : bool) : M (list (string * string)) :=
  s ← get;
  if negb sort then mret (MultiGraph.edges (g s))
  else
    let links :=
      map (fun e => sorted_pair (fst e) (snd e)) (MultiGraph.edges (g s)) in
    mret (py_sorted Natural.seq_lt links).

(** [self.ports[a][b]] when [a in self.ports and b in self.ports[a]]. *)
Definition port_cell (p : gmap string (gmap string Z)) (a b : string)
  : option Z :=
  match p !! a with
  | Some tbl => tbl !! b
  | None => None
  end.

(** [port] returns [None] when the test of its [if] fails, and raises
    [AssertionError] when the test holds and the reciprocal entry is
    missing. *)
Definition port (src dst : string) : M (option (Z * Z)) :=
  s ← get;
  match port_cell (ports s) src dst with
  | Some sp =>
      match port_cell (ports s) dst src with
      | Some dp => mret (Some (sp, dp))
      | None => raise AssertionError
      end
  | None => mret None
  end.

Definition linkInfo (src dst : string) : M opts_t :=
  s ← get;
  match link_info s !! sorted_pair src dst with
  | Some info => mret info
  | None => raise KeyError
  end.

Definition setlinkInfo (src dst : string) (info : opts_t) : M unit :=
  modify (set_link_info <[sorted_pair src dst := info]>).

Definition nodeInfo (name : string) : M opts_t :=
  s ← get;
  match node_info s !! name with
  | Some (Some info) => mret info
  | Some None => mret ∅
  | None => raise KeyError
  end.

Definition setNodeInfo (name : string) (info : option opts_t) : M unit :=
  modify (set_node_info <[name := info]>).

(** *** Histories of calls

    The mutating methods of the public interface, and the state reached
    by a sequence of calls.  Next to the object, [run] keeps the list of
    the links that [addLink] added, most recent first, each with the
    port numbers it was given or assigned. *)
Inductive op : Type :=
  | AddNode (name : string) (opts : opts_t)
  | AddHost (name : string) (opts : opts_t)
  | AddSwitch (name : string) (opts : opts_t)
  | AddLegacySwitch (name : string) (opts : opts_t)
  | AddHostInterface (name : string) (opts : opts_t)
  | AddLegacyRouter (name : string) (opts : opts_t)
  | AddTransitPortalRouter (name : string) (opts : opts_t)
  | AddLink (node1 node2 : string) (port1 port2 : option Z) (opts : opts_t)
  | SetlinkInfo (src dst : string) (info : opts_t)
  | SetNodeInfo (name : string) (info : option opts_t).

(** Number of neighbours in the port table of [n]; none when [n] has no
    table yet. *)
Definition neighbors_recorded (s : t) (n : string) : nat :=
  size (default ∅ (ports s !! n)).

(** The value of [src_base] (or [dst_base]) in [addPort] for a node that
    has metadata. *)
Definition port_base (s : t) (n : string) : Z :=
  match node_info s !! n with
  | Some info => if info_flag "isSwitch" info then 1 else 0
  | None => 0
  end.

(** The values of [sport] and [dport] in [addPort] when it reaches its
    two assignments to [self.ports]. *)
Definition link_ports (s : t) (src dst : string) (sport dport : option Z)
  : Z * Z :=
  (default (Z.of_nat (neighbors_recorded s src) + port_base s src) sport,
   default (Z.of_nat (neighbors_recorded s dst) + port_base s dst) dport).

(** A link that was added: its end points as given to [addLink], and the
    port on each. *)
Definition link_record : Type := (string * string) * (Z * Z).

Definition call (o : op) (s : t) : t * res unit :=
  match o with
  | AddNode n o => (addNode n o;; mret tt) s
  | AddHost n o => (addHost n o;; mret tt) s
  | AddSwitch n o => (addSwitch n o;; mret tt) s
  | AddLegacySwitch n o => (addLegacySwitch n o;; mret tt) s
  | AddHostInterface n o => (addHostInterface n o;; mret tt) s
  | AddLegacyRouter n o => (addLegacyRouter n o;; mret tt) s
  | AddTransitPortalRouter n o => (addTransitPortalRouter n o;; mret tt) s
  | AddLink n1 n2 p1 p2 o => (addLink n1 n2 p1 p2 o;; mret tt) s
  | SetlinkInfo a b i => setlinkInfo a b i s
  | SetNodeInfo n i => setNodeInfo n i s
  end.

Definition step (st : t * list link_record) (o : op)
  : t * list link_record :=
  let r := call o (fst st) in
  match o, outcome r with
  | AddLink n1 n2 p1 p2 _, Ok _ =>
      (state_of r,
       ((n1, n2), link_ports (fst st) n1 n2 p1 p2) :: snd st)
  | _, _ => (state_of r, snd st)
  end.

Definition run (ops : list op) (s : t) : t * list link_record :=
  fold_left step ops (s, []).

(** A pair of names that joins [a] and [b], in either order. *)
Definition between (a b : string) (e : string * string) : bool :=
  (String.eqb (fst e) a && String.eqb (snd e) b)
  || (String.eqb (fst e) b && String.eqb (snd e) a).

(** Number of pairs of a list that join [a] and [b]. *)
Definition count_links (a b : string) (l : list (string * string)) : nat :=
  length (List.filter (between a b) l).

(** The ports on [a] and on [b] of the most recent link between them. *)
Fixpoint latest (log : list link_record) (a b : string) : option (Z * Z) :=
  match log with
  | [] => None
  | ((x, y), (px, py)) :: log' =>
      if String.eqb x a && String.eqb y b then Some (px, py)
      else if String.eqb x b && String.eqb y a then Some (py, px)
      else latest log' a b
  end.

(** A call that is not [addLink] on the nodes [a] and [b]. *)
Definition not_link_between (a b : string) (o : op) : bool :=
  match o with
  | AddLink n1 n2 _ _ _ => negb (between a b (n1, n2))
  | _ => true
  end.

(** The port table has an entry for [b] under [a] exactly when it has one
    for [a] under [b]. *)
Definition ports_symmetric (s : t) : Prop :=
  forall a b : string,
    is_Some (port_cell (ports s) a b) <-> is_Some (port_cell (ports s) b a).

(** Some link of the history joins [a] and [b]. *)
Definition linked (log : list link_record) (a b : string) : bool :=
  existsb (fun r => between a b (fst r)) log.

(** What a history of calls maintains: the port table is symmetric, it
    holds the ports of the most recent link between two different nodes,
    and it has entries only for nodes that some link joins. *)
Definition history_inv (st : t * list link_record) : Prop :=
  ports_symmetric (fst st) /\
  (forall a b pa pb,
      a <> b -> latest (snd st) a b = Some (pa, pb) ->
      port_cell (ports (fst st)) a b = Some pa /\
      port_cell (ports (fst st)) b a = Some pb) /\
  (forall a b,
      is_Some (port_cell (ports (fst st)) a b) -> linked (snd st) a b = true).

(** The calls of the star scenario: a switch and three hosts, each host
    linked to the switch without explicit ports. *)
Definition star_calls : list op :=
  [ AddSwitch "s1" ∅;
    AddHost "h1" ∅; AddLink "h1" "s1" None None ∅;
    AddHost "h2" ∅; AddLink "h2" "s1" None None ∅;
    AddHost "h3" ∅; AddLink "h3" "s1" None None ∅ ].

Definition star : t := fst (run star_calls (init ∅ ∅ ∅ ∅ ∅ ∅ ∅)).

End Topo.

(** ** Canned topologies *)

Module Shapes.

Import Topo.

(** Modelled from the spec: [irange] is imported from [mininet.util], which
    is not part of the sources.  The scenarios of the spec build the hosts
    h1 .. hk with it: [irange(start, stop)] is the list of the integers from
    [start] to [stop], both included. *)
Definition irange (start stop : Z) : list Z :=
  map (fun i => start + Z.of_nat i) (seq 0 (Z.to_nat (stop + 1 - start))).

(** ['h%s' % h] and ['s%s' % i]: the decimal writing of the number after
    the letter. *)
Definition host_name (h : Z) : string := "h" +:+ pretty h.
Definition switch_name (i : Z) : string := "s" +:+ pretty i.

(** [for x in l: body(x)]; an exception ends the loop. *)
Fixpoint for_each {A : Type} (l : list A) (body : A -> M unit) : M unit :=
  match l with
  | [] => mret tt
  | x :: l' => body x;; for_each l' body
  end.

(** [SingleSwitchTopo.__init__], after [Topo.__init__]; the attribute [k]
    it stores is not read by any method. *)
Definition SingleSwitchTopo (k : Z) : M unit :=
  switch ← addSwitch "s1" ∅;
  for_each (irange 1 k) (fun h =>
    host ← addHost (host_name h) ∅;
    addLink host switch None None ∅;;
    mret tt).

(** [SingleSwitchReversedTopo.__init__], after [Topo.__init__]. *)
Definition SingleSwitchReversedTopo (k : Z) : M unit :=
  switch ← addSwitch "s1" ∅;
  for_each (irange 1 k) (fun h =>
    host ← addHost (host_name h) ∅;
    addLink host switch (Some 0) (Some (k - h + 1)) ∅;;
    mret tt).

(** [genHostName] of [LinearTopo]: ['h%s' % i] when [n == 1], and
    ['h%ss%d' % (j, i)] otherwise. *)
Definition genHostName (n i j : Z) : string :=
  if n =? 1 then "h" +:+ pretty i
  else "h" +:+ pretty j +:+ "s" +:+ pretty i.

(** The loop over the switches of [LinearTopo.__init__]; [lastSwitch] is
    the local variable of that name, [None] or a name. *)
Fixpoint linear_loop (n : Z) (l : list Z) (lastSwitch : option string)
  : M unit :=
  match l with
  | [] => mret tt
  | i :: l' =>
      switch ← addSwitch (switch_name i) ∅;
      for_each (irange 1 n) (fun j =>
        host ← addHost (genHostName n i j) ∅;
        addLink host switch None None ∅;;
        mret tt);;
      match lastSwitch with
      | Some last =>
          if negb (String.eqb last "")
          then addLink switch last None None ∅;; mret tt
          else mret tt
      | None => mret tt
      end;;
      linear_loop n l' (Some switch)
  end.

(** [LinearTopo.__init__], after [Topo.__init__]. *)
Definition LinearTopo (k n : Z) : M unit :=
  linear_loop n (irange 1 k) None.

End Shapes.

(** ** Invariants of the store and of the model *)

(** Each node of the store is listed once, and each edge goes from the
    smaller to the larger name, both of them registered. *)
Definition store_ok (d : MultiGraph.t) : Prop :=
  NoDup (MultiGraph.nodes d) /\
  forall src dest,
    In (src, dest) (MultiGraph.edges d) ->
    String.leb src dest = true /\
    MultiGraph.contains src d = true /\
    MultiGraph.contains dest d = true.

(** The condition that a role predicate evaluates for [n], false for a name
    without metadata. *)
Definition has_flag (s : Topo.t) (flag n : string) : bool :=
  match Topo.node_info s !! n with
  | Some info => Topo.info_flag flag info
  | None => false
  end.

(** Options that [addNode_flagged] accepts for the role [flag]. *)
Definition accepted (flag : string) (opts : opts_t) : Prop :=
  opts !! flag = None /\ opts !! "name" = None /\ opts !! "self" = None.

(** What a history of calls maintains about the graph: the store is well
    formed, its nodes have metadata, it has one edge for each link that
    was added, and the end points of each edge have ports for each other. *)
Definition graph_inv (st : Topo.t * list Topo.link_record) : Prop :=
  store_ok (Topo.g (fst st)) /\
  (forall n,
      In n (MultiGraph.nodes (Topo.g (fst st))) ->
      is_Some (Topo.node_info (fst st) !! n)) /\
  length (MultiGraph.edges (Topo.g (fst st))) = length (snd st) /\
  (forall a b,
      In (a, b) (MultiGraph.edges (Topo.g (fst st))) ->
      is_Some (Topo.port_cell (Topo.ports (fst st)) a b) /\
      is_Some (Topo.port_cell (Topo.ports (fst st)) b a)).

(** A role adder, given options that [addNode_flagged] accepts, returns
    the name, stores the options with the flag of the role set, registers
    the node, and makes the predicate of the role true. *)
Definition classifies (adder : string -> opts_t -> Topo.M string)
  (flag : string) (defaults : Topo.t -> opts_t) : Prop :=
  forall (s : Topo.t) (name : string) (opts : opts_t),
    accepted flag (Topo.or_default opts (defaults s)) ->
    let r := adder name opts s in
    Topo.outcome r = Ok name /\
    Topo.node_info (Topo.state_of r) !! name =
      Some (Some (<[flag := VBool true]> (Topo.or_default opts (defaults s)))) /\
    Topo.g (Topo.state_of r) = MultiGraph.add_node name (Topo.g s) /\
    Topo.ports (Topo.state_of r) = Topo.ports s /\
    Topo.role_flag flag name (Topo.state_of r) = (Topo.state_of r, Ok true).

(** A role adder, given options that carry its flag or the keys ["name"]
    or ["self"], raises [TypeError] and changes nothing. *)
Definition rejects (adder : string -> opts_t -> Topo.M string)
  (flag : string) (defaults : Topo.t -> opts_t) : Prop :=
  forall (s : Topo.t) (name : string) (opts : opts_t),
    ~ accepted flag (Topo.or_default opts (defaults s)) ->
    adder name opts s = (s, Raise TypeError).

(** The port table of a node, empty for a node that has none. *)
Definition port_table (s : Topo.t) (n : string) : gmap string Z :=
  default ∅ (Topo.ports s !! n).

(** Two objects that differ at most by empty port tables. *)
Definition same_view (s s' : Topo.t) : Prop :=
  s' = Topo.set_ports (fun _ => Topo.ports s') s /\
  forall n, port_table s' n = port_table s n.

(** The state of a star under construction, after the hosts 1 .. [a] were
    linked to the switch "s1" with the ports [f1 h] (on the host) and
    [f2 h] (on the switch), where a port that is not given is numbered by
    [addPort]: the switch is classified as such, its port table has the
    [a] hosts, and each host has the switch as its one neighbour. *)
Definition star_inv (f1 f2 : Z -> option Z) (ho : opts_t) (hbase : Z)
  (a : nat) (s : Topo.t) : Prop :=
  Topo.hopts s = ho /\
  (exists isw,
      Topo.node_info s !! "s1" = Some isw /\
      Topo.info_flag "isSwitch" isw = true) /\
  size (port_table s "s1") = a /\
  (forall h,
      1 <= h <= Z.of_nat a ->
      port_table s "s1" !! Shapes.host_name h = Some (default h (f2 h)) /\
      port_table s (Shapes.host_name h) = {[ "s1" := default hbase (f1 h) ]}) /\
  (forall h,
      Z.of_nat a < h ->
      port_table s "s1" !! Shapes.host_name h = None /\
      port_table s (Shapes.host_name h) = ∅).

(** The base of the ports of a host added with the default options [ho]:
    1 when these options classify it as a switch as well. *)
Definition host_base (ho : opts_t) : Z :=
  if truthy (default (VBool false) (ho !! "isSwitch")) then 1 else 0.

(** The port table of the switch [j] of a chain whose switches 1 .. [i]
    are built, with one host for each switch: the host on port 1, the
    previous switch on port 2, and the next switch on the port after
    these. *)
Definition lin_table (i j : Z) : gmap string Z :=
  let base : gmap string Z := {[ Shapes.host_name j := 1 ]} in
  let up := if 2 <=? j then <[Shapes.switch_name (j - 1) := 2]> base
            else base in
  if j <? i
  then <[Shapes.switch_name (j + 1) := if j =? 1 then 2 else 3]> up
  else up.

(** The state of a chain under construction, after its switches 1 .. [i]
    were built. *)
Definition lin_inv (ho so : opts_t) (i : nat) (s : Topo.t) : Prop :=
  Topo.hopts s = ho /\
  Topo.sopts s = so /\
  (forall j,
      1 <= j <= Z.of_nat i ->
      (exists isw,
          Topo.node_info s !! Shapes.switch_name j = Some isw /\
          Topo.info_flag "isSwitch" isw = true) /\
      port_table s (Shapes.host_name j) =
        {[ Shapes.switch_name j := host_base ho ]} /\
      port_table s (Shapes.switch_name j) = lin_table (Z.of_nat i) j) /\
  (forall j,
      Z.of_nat i < j ->
      port_table s (Shapes.host_name j) = ∅ /\
      port_table s (Shapes.switch_name j) = ∅).

(** A call that does not store link metadata under the key [k]. *)
Definition keeps_link_key (k : string * string) (o : Topo.op) : bool :=
  match o with
  | Topo.AddLink n1 n2 _ _ _ => negb (bool_decide (Topo.sorted_pair n1 n2 = k))
  | Topo.SetlinkInfo a b _ => negb (bool_decide (Topo.sorted_pair a b = k))
  | _ => true
  end.

(** ** Proof automation *)

Import Topo.

Ltac munfold :=
  cbv beta iota delta
    [mbind M_bind mret M_ret get modify raise state_of outcome fst snd].

(** Closes a goal whose hypotheses on the equality of names are
    contradictory. *)
Ltac name_contra :=
  exfalso;
  repeat match goal with H : _ /\ _ |- _ => destruct H end;
  subst;
  solve [ congruence
        | match goal with
          | H : ~ (_ /\ _) |- _ => apply H; split; congruence
          | H : ~ (_ \/ _) |- _ => apply H; (left + right); split; congruence
          end ].

Ltac proj_simpl :=
  cbn [g node_info link_info hopts sopts lopts lropts lsopts tpropts hiopts
       ports set_g set_node_info set_link_info set_ports state_of outcome
       fst snd] in *.

(** * Properties *)

(** ** Sorting a pair *)

Section Sorting.

Context {A : Type} (ltb : A -> A -> bool).

Lemma py_sorted_pair (a b : A) :
  py_sorted ltb [a; b] = if ltb b a then [b; a] else [a; b].
Proof. reflexivity. Qed.

Lemma sorted_insert_perm (x : A) (l : list A) :
  Permutation (sorted_insert ltb x l) (x :: l).
Proof.
  induction l as [|y l IH]; simpl; [reflexivity|].
  destruct (ltb y x); [|reflexivity].
  rewrite IH. apply perm_swap.
Qed.

Lemma py_sorted_perm (l : list A) : Permutation (py_sorted ltb l) l.
Proof.
  induction l as [|x l IH]; simpl; [reflexivity|].
  rewrite sorted_insert_perm. now constructor.
Qed.

End Sorting.

Lemma string_ltb_asym (a b : string) :
  String.ltb a b = true -> String.ltb b a = false.
Proof.
  unfold String.ltb. rewrite (String.compare_antisym a b).
  destruct (String.compare b a); simpl; congruence.
Qed.

Lemma string_ltb_irrefl (a : string) : String.ltb a a = false.
Proof.
  destruct (String.ltb a a) eqn:E; [|reflexivity].
  pose proof (string_ltb_asym _ _ E). congruence.
Qed.

Lemma string_not_ltb_leb (a b : string) :
  String.ltb b a = false -> String.leb a b = true.
Proof.
  unfold String.ltb, String.leb. rewrite (String.compare_antisym a b).
  destruct (String.compare b a); simpl; congruence.
Qed.

Lemma string_ltb_leb (a b : string) :
  String.ltb a b = true -> String.leb a b = true.
Proof.
  unfold String.ltb, String.leb. destruct (String.compare a b); congruence.
Qed.

Module NaturalFacts.
Import Natural.

Lemma token_compare_antisym (x y : token) :
  token_compare y x = CompOpp (token_compare x y).
Proof.
  destruct x, y; simpl; try reflexivity.
  - apply N.compare_antisym.
  - apply String.compare_antisym.
Qed.

Lemma seq_compare_antisym {A : Type} (cmp : A -> A -> comparison) :
  (forall x y, cmp y x = CompOpp (cmp x y)) ->
  forall k1 k2, seq_compare cmp k2 k1 = CompOpp (seq_compare cmp k1 k2).
Proof.
  intros Hcmp k1. induction k1 as [|x k1 IH]; intros [|y k2]; simpl;
    try reflexivity.
  rewrite (Hcmp x y). destruct (cmp x y); simpl; auto.
Qed.

Lemma key_compare_antisym (k1 k2 : list token) :
  key_compare k2 k1 = CompOpp (key_compare k1 k2).
Proof. apply seq_compare_antisym, token_compare_antisym. Qed.

Lemma lt_asym (a b : string) : lt a b = true -> lt b a = false.
Proof.
  unfold lt. rewrite (key_compare_antisym (natural a) (natural b)).
  destruct (key_compare (natural a) (natural b)); simpl; congruence.
Qed.

Lemma lt_irrefl (a : string) : lt a a = false.
Proof.
  destruct (lt a a) eqn:E; [|reflexivity].
  pose proof (lt_asym _ _ E). congruence.
Qed.

End NaturalFacts.

(** The key of a link is one of the two orders of its end points. *)
Lemma Topo_sorted_pair_eq (a b : string) :
  Topo.sorted_pair a b = if Natural.lt b a then (b, a) else (a, b).
Proof.
  unfold Topo.sorted_pair, Topo.sorted. rewrite py_sorted_pair.
  now destruct (Natural.lt b a).
Qed.

(** Names whose keys differ have one key for both orders. *)
Lemma Topo_sorted_pair_comm (a b : string) :
  a = b \/ Natural.lt a b = true \/ Natural.lt b a = true ->
  Topo.sorted_pair a b = Topo.sorted_pair b a.
Proof.
  rewrite !Topo_sorted_pair_eq.
  intros [-> | [H | H]].
  - now destruct (Natural.lt b b).
  - rewrite H, (NaturalFacts.lt_asym _ _ H). reflexivity.
  - rewrite H, (NaturalFacts.lt_asym _ _ H). reflexivity.
Qed.

Lemma MultiGraph_sorted_pair_eq (a b : string) :
  MultiGraph.sorted_pair a b = if String.ltb b a then (b, a) else (a, b).
Proof.
  unfold MultiGraph.sorted_pair. rewrite py_sorted_pair.
  now destruct (String.ltb b a).
Qed.

(** ** The graph store *)

Section MultiGraphFacts.
Import MultiGraph.

Lemma contains_getitem (n : string) (d : MultiGraph.t) :
  contains n d = match getitem n d with Some _ => true | None => false end.
Proof.
  induction d as [|[k v] d IH]; simpl; [reflexivity|].
  now destruct (String.eqb k n).
Qed.

Lemma getitem_app_new (n m : string) (d : MultiGraph.t) :
  getitem n (d ++ [(m, [])]) =
    match getitem n d with
    | Some v => Some v
    | None => if String.eqb m n then Some [] else None
    end.
Proof.
  induction d as [|[k v] d IH]; simpl; [reflexivity|].
  now destruct (String.eqb k n).
Qed.

Lemma getitem_add_node (n m : string) (d : MultiGraph.t) :
  getitem n (add_node m d) =
    match getitem n d with
    | Some v => Some v
    | None => if String.eqb m n then Some [] else None
    end.
Proof.
  unfold add_node. rewrite contains_getitem.
  destruct (getitem m d) eqn:Hm.
  - destruct (getitem n d) eqn:Hn; [reflexivity|].
    destruct (String.eqb_spec m n); [congruence | reflexivity].
  - apply getitem_app_new.
Qed.

Lemma contains_add_node_same (m : string) (d : MultiGraph.t) :
  contains m (add_node m d) = true.
Proof.
  rewrite contains_getitem, getitem_add_node, String.eqb_refl.
  now destruct (getitem m d).
Qed.

Lemma edges_app (d1 d2 : MultiGraph.t) :
  edges (d1 ++ d2) = edges d1 ++ edges d2.
Proof. unfold edges. apply flat_map_app. Qed.

Lemma edges_add_node (m : string) (d : MultiGraph.t) :
  edges (add_node m d) = edges d.
Proof.
  unfold add_node. destruct (contains m d); [reflexivity|].
  rewrite edges_app. simpl. apply app_nil_r.
Qed.

(** Appending to the adjacency list of a registered node. *)
Lemma append_to_spec (src dest : string) (d : MultiGraph.t) (v : list string) :
  getitem src d = Some v ->
  exists d',
    append_to src dest d = Some d' /\
    nodes d' = nodes d /\
    getitem src d' = Some (v ++ [dest]) /\
    (forall n, n <> src -> getitem n d' = getitem n d) /\
    Permutation (edges d') ((src, dest) :: edges d).
Proof.
  induction d as [|[k w] d IH]; simpl; [discriminate|].
  destruct (String.eqb_spec k src) as [->|Hk]; intros Hv.
  - injection Hv as ->. eexists. split; [reflexivity|].
    simpl. rewrite String.eqb_refl. repeat split.
    + intros n Hn. destruct (String.eqb_spec src n); [congruence|reflexivity].
    + rewrite map_app. simpl. rewrite <- app_assoc. simpl.
      symmetry. apply Permutation_middle.
  - destruct (IH Hv) as (d' & -> & Hnodes & Hsrc & Hother & Hperm).
    eexists. split; [reflexivity|]. simpl.
    destruct (String.eqb_spec k src) as [Heq|_]; [congruence|].
    repeat split.
    + now rewrite Hnodes.
    + exact Hsrc.
    + intros n Hn. destruct (String.eqb k n); [reflexivity|]. now apply Hother.
    + rewrite Hperm. symmetry. apply Permutation_middle.
Qed.

End MultiGraphFacts.

Lemma add_edge_ordered (src dest : string) (d : MultiGraph.t) :
  exists d',
    MultiGraph.append_to src dest
      (MultiGraph.add_node dest (MultiGraph.add_node src d)) = Some d' /\
    MultiGraph.nodes d' =
      MultiGraph.nodes (MultiGraph.add_node dest (MultiGraph.add_node src d)) /\
    MultiGraph.getitem src d' =
      Some (default [] (MultiGraph.getitem src d) ++ [dest]) /\
    (forall n, n <> src ->
       MultiGraph.getitem n d' =
         match MultiGraph.getitem n d with
         | Some v => Some v
         | None => if String.eqb dest n then Some [] else None
         end) /\
    Permutation (MultiGraph.edges d') ((src, dest) :: MultiGraph.edges d).
Proof.
  assert (Hsrc : MultiGraph.getitem src
            (MultiGraph.add_node dest (MultiGraph.add_node src d)) =
          Some (default [] (MultiGraph.getitem src d))).
  { rewrite !getitem_add_node, String.eqb_refl.
    now destruct (MultiGraph.getitem src d). }
  destruct (append_to_spec src dest _ _ Hsrc)
    as (d' & Happ & Hnodes & Hget & Hother & Hperm).
  exists d'. repeat split; try assumption.
  - intros n Hn. rewrite (Hother n Hn), !getitem_add_node.
    destruct (MultiGraph.getitem n d); [reflexivity|].
    destruct (String.eqb_spec src n); [congruence|reflexivity].
  - now rewrite Hperm, !edges_add_node.
Qed.

(** [add_edge] never raises: the node it appends to was just registered. *)
Lemma add_edge_run (x y : string) (d : MultiGraph.t) :
  exists d',
    MultiGraph.add_edge x y d = Ok d' /\
    Permutation (MultiGraph.edges d')
      (MultiGraph.sorted_pair x y :: MultiGraph.edges d).
Proof.
  unfold MultiGraph.add_edge.
  destruct (MultiGraph.sorted_pair x y) as [src dest].
  destruct (add_edge_ordered src dest d) as (d' & Happ & _ & _ & _ & Hperm).
  exists d'. rewrite Happ. now split.
Qed.

(** C2 (as amended): [MultiGraph.add_edge a b] orders the pair by Python's
    built-in order on strings, code point by code point, not by the natural
    order: [src] is the smaller and [dest] the larger name in that order.
    Both end points are registered if they are new, [dest] is appended to
    the adjacency list of [src], and no other adjacency list changes. *)
Theorem add_edge_string_order (a b : string) (d : MultiGraph.t) :
  let src := if String.ltb b a then b else a in
  let dest := if String.ltb b a then a else b in
  MultiGraph.sorted_pair a b = (src, dest) /\
  String.leb src dest = true /\
  exists d',
    MultiGraph.add_edge a b d = Ok d' /\
    MultiGraph.nodes d' =
      MultiGraph.nodes (MultiGraph.add_node dest (MultiGraph.add_node src d)) /\
    MultiGraph.getitem src d' =
      Some (default [] (MultiGraph.getitem src d) ++ [dest]) /\
    (forall n, n <> src ->
       MultiGraph.getitem n d' =
         match MultiGraph.getitem n d with
         | Some v => Some v
         | None => if String.eqb dest n then Some [] else None
         end) /\
    Permutation (MultiGraph.edges d') ((src, dest) :: MultiGraph.edges d).
Proof.
  intros src dest.
  assert (Hpair : MultiGraph.sorted_pair a b = (src, dest)).
  { rewrite MultiGraph_sorted_pair_eq. subst src dest.
    now destruct (String.ltb b a). }
  split; [exact Hpair|]. split.
  { subst src dest. destruct (String.ltb b a) eqn:E.
    - now apply string_ltb_leb.
    - now apply string_not_ltb_leb. }
  destruct (add_edge_ordered src dest d) as (d' & Happ & Hrest).
  exists d'. split; [|exact Hrest].
  unfold MultiGraph.add_edge. rewrite Hpair, Happ. reflexivity.
Qed.

(** C2 (as stated) fails: the natural order puts ["h2"] before ["h10"], but
    the store files the edge under ["h10"]. *)
Lemma add_edge_natural_counterexample :
  Topo.sorted_pair "h2" "h10" = ("h2", "h10") /\
  exists d',
    MultiGraph.add_edge "h2" "h10" MultiGraph.init = Ok d' /\
    MultiGraph.getitem "h10" d' = Some ["h2"] /\
    MultiGraph.getitem "h2" d' = Some [] /\
    ~ In ("h2", "h10") (MultiGraph.edges d').
Proof.
  split; [reflexivity|].
  eexists. split; [reflexivity|]. repeat split.
  simpl. intros [H | []]. discriminate H.
Qed.

(** ** Running the methods of [Topo] *)

Section Running.

Lemma bind_Ok {A B : Type} (m : M A) (k : A -> M B) (s s' : Topo.t) (a : A) :
  m s = (s', Ok a) -> (m ≫= k) s = k a s'.
Proof. intros H. unfold mbind, M_bind. now rewrite H. Qed.

Lemma bind_Raise {A B : Type} (m : M A) (k : A -> M B) (s s' : Topo.t)
  (e : exn) :
  m s = (s', Raise e) -> (m ≫= k) s = (s', Raise e).
Proof. intros H. unfold mbind, M_bind. now rewrite H. Qed.

Lemma role_flag_run (flag n : string) (s : Topo.t) (info : option opts_t) :
  node_info s !! n = Some info ->
  role_flag flag n s = (s, Ok (info_flag flag info)).
Proof. intros H. unfold role_flag. munfold. now rewrite H. Qed.

Lemma role_flag_unknown (flag n : string) (s : Topo.t) :
  node_info s !! n = None -> role_flag flag n s = (s, Raise KeyError).
Proof. intros H. unfold role_flag. munfold. now rewrite H. Qed.

Lemma ports_len_run (n : string) (s : Topo.t) (tbl : gmap string Z) :
  ports s !! n = Some tbl -> ports_len n s = (s, Ok (Z.of_nat (size tbl))).
Proof. intros H. unfold ports_len. munfold. now rewrite H. Qed.

Lemma ports_setitem_run (a b : string) (v : Z) (s : Topo.t)
  (tbl : gmap string Z) :
  ports s !! a = Some tbl ->
  ports_setitem a b v s = (set_ports <[a := <[b := v]> tbl]> s, Ok tt).
Proof. intros H. unfold ports_setitem. munfold. now rewrite H. Qed.

Lemma g_add_edge_run (a b : string) (s : Topo.t) (d : MultiGraph.t) :
  MultiGraph.add_edge a b (g s) = Ok d ->
  g_add_edge a b s = (set_g (fun _ => d) s, Ok tt).
Proof. intros H. unfold g_add_edge. munfold. now rewrite H. Qed.

(** [setdefault] on the port table *)
Lemma lookup_ports_ensure (n m : string) (p : gmap string (gmap string Z)) :
  ports_ensure n p !! m =
    match p !! m with
    | Some tbl => Some tbl
    | None => if decide (n = m) then Some ∅ else None
    end.
Proof.
  unfold ports_ensure. destruct (p !! n) eqn:Hn.
  - destruct (p !! m) eqn:Hm; [reflexivity|].
    case_decide; [congruence|reflexivity].
  - rewrite lookup_insert. case_decide; subst.
    + now rewrite Hn.
    + now destruct (p !! m).
Qed.

Lemma lookup_ensure_default (n m : string) (p : gmap string (gmap string Z)) :
  is_Some (p !! m) \/ n = m ->
  ports_ensure n p !! m = Some (default ∅ (p !! m)).
Proof.
  rewrite lookup_ports_ensure. intros [[tbl ->] | ->]; [reflexivity|].
  destruct (p !! m); [reflexivity|]. now rewrite decide_True.
Qed.

Lemma port_cell_ensure (n a b : string) (p : gmap string (gmap string Z)) :
  port_cell (ports_ensure n p) a b = port_cell p a b.
Proof.
  unfold port_cell. rewrite lookup_ports_ensure.
  destruct (p !! a); [reflexivity|].
  case_decide; [apply lookup_empty|reflexivity].
Qed.

Lemma port_cell_insert (p : gmap string (gmap string Z)) (a b : string)
  (v : Z) (tbl : gmap string Z) (x y : string) :
  p !! a = Some tbl ->
  port_cell (<[a := <[b := v]> tbl]> p) x y =
    if decide (x = a /\ y = b) then Some v else port_cell p x y.
Proof.
  intros Ha. unfold port_cell. rewrite lookup_insert.
  destruct (decide (a = x)) as [->|Hax].
  - rewrite Ha, lookup_insert.
    destruct (decide (b = y)) as [->|Hby].
    + rewrite decide_True by done. reflexivity.
    + rewrite decide_False by (intros [_ ->]; done). reflexivity.
  - rewrite decide_False by (intros [-> _]; done). reflexivity.
Qed.

(** The port that [addPort] takes for an end point. *)
Lemma auto_port_run (s s2 : Topo.t) (n : string) (p : option Z)
  (i : option opts_t) :
  node_info s !! n = Some i ->
  ports s2 !! n = Some (default ∅ (ports s !! n)) ->
  match p with
  | Some q => mret q
  | None =>
      ports_len n
        ≫= fun k => mret (k + (if info_flag "isSwitch" i then 1 else 0))
  end s2 =
  (s2, Ok (default (Z.of_nat (neighbors_recorded s n) + port_base s n) p)).
Proof.
  intros Hi Hn. destruct p as [q|]; [reflexivity|].
  rewrite (bind_Ok _ _ _ _ _ (ports_len_run _ _ _ Hn)).
  unfold port_base, neighbors_recorded. rewrite Hi. reflexivity.
Qed.

(** [addPort] on two nodes that have metadata: it does not raise, and
    writes the two cells of the port table, the one of [dst] last. *)
Lemma addPort_ok (s : Topo.t) (src dst : string) (sport dport : option Z)
  (i1 i2 : option opts_t) :
  node_info s !! src = Some i1 ->
  node_info s !! dst = Some i2 ->
  exists P',
    addPort src dst sport dport s = (set_ports (fun _ => P') s, Ok tt) /\
    forall x y,
      port_cell P' x y =
        if decide (x = dst /\ y = src)
        then Some (snd (link_ports s src dst sport dport))
        else if decide (x = src /\ y = dst)
        then Some (fst (link_ports s src dst sport dport))
        else port_cell (ports s) x y.
Proof.
  intros H1 H2.
  set (s2 := set_ports (ports_ensure dst) (set_ports (ports_ensure src) s)).
  assert (Hsrc : ports s2 !! src = Some (default ∅ (ports s !! src))).
  { subst s2. proj_simpl.
    rewrite lookup_ports_ensure, lookup_ensure_default by auto.
    reflexivity. }
  assert (Hdst : ports s2 !! dst = Some (default ∅ (ports s !! dst))).
  { subst s2. proj_simpl. rewrite lookup_ensure_default; [|auto].
    rewrite lookup_ports_ensure. destruct (ports s !! dst); [reflexivity|].
    now case_decide. }
  unfold link_ports. cbn [fst snd].
  set (sp := default _ sport). set (dp := default _ dport).
  unfold addPort.
  rewrite (bind_Ok _ _ s (set_ports (ports_ensure src) s) tt) by reflexivity.
  rewrite (bind_Ok _ _ _ s2 tt) by reflexivity.
  rewrite (bind_Ok _ _ _ _ _ (role_flag_run "isSwitch" src s2 i1 H1)).
  rewrite (bind_Ok _ _ _ _ _ (role_flag_run "isSwitch" dst s2 i2 H2)).
  rewrite (bind_Ok _ _ _ _ _ (auto_port_run s s2 src sport i1 H1 Hsrc)).
  rewrite (bind_Ok _ _ _ _ _ (auto_port_run s s2 dst dport i2 H2 Hdst)).
  fold sp dp.
  rewrite (bind_Ok _ _ _ _ _ (ports_setitem_run src dst sp s2 _ Hsrc)).
  set (T1 := default ∅ (ports s !! src)) in *.
  assert (Hdst3 :
    exists T2, <[src := <[dst := sp]> T1]> (ports s2) !! dst = Some T2).
  { rewrite lookup_insert. case_decide; eauto. }
  destruct Hdst3 as [T2 Hdst3].
  rewrite (ports_setitem_run dst src dp _ T2) by exact Hdst3.
  eexists. split; [reflexivity|].
  intros x y. proj_simpl.
  rewrite (port_cell_insert _ dst src dp T2 x y Hdst3).
  case_decide; [reflexivity|].
  rewrite (port_cell_insert _ src dst sp T1 x y Hsrc).
  case_decide; [reflexivity|].
  subst s2. proj_simpl. now rewrite !port_cell_ensure.
Qed.

(** [addPort] on a node without metadata: the lookup in [isSwitch] raises
    after the two [setdefault] calls. *)
Lemma addPort_unknown (s : Topo.t) (src dst : string)
  (sport dport : option Z) :
  node_info s !! src = None \/ node_info s !! dst = None ->
  addPort src dst sport dport s =
    (set_ports (fun p => ports_ensure dst (ports_ensure src p)) s,
     Raise KeyError).
Proof.
  intros H. unfold addPort.
  set (s2 := set_ports (ports_ensure dst) (set_ports (ports_ensure src) s)).
  rewrite (bind_Ok _ _ s (set_ports (ports_ensure src) s) tt) by reflexivity.
  rewrite (bind_Ok _ _ _ s2 tt) by reflexivity.
  destruct (node_info s !! src) as [i1|] eqn:H1.
  - destruct H as [H|H]; [discriminate|].
    rewrite (bind_Ok _ _ _ _ _ (role_flag_run "isSwitch" src s2 i1 H1)).
    rewrite (bind_Raise _ _ _ _ _ (role_flag_unknown "isSwitch" dst s2 H)).
    reflexivity.
  - rewrite (bind_Raise _ _ _ _ _ (role_flag_unknown "isSwitch" src s2 H1)).
    reflexivity.
Qed.

Lemma addLink_ok (s : Topo.t) (node1 node2 : string) (port1 port2 : option Z)
  (opts : opts_t) (i1 i2 : option opts_t) :
  node_info s !! node1 = Some i1 ->
  node_info s !! node2 = Some i2 ->
  let key := sorted_pair node1 node2 in
  exists P' d',
    addLink node1 node2 port1 port2 opts s =
      (set_g (fun _ => d')
         (set_link_info <[key := or_default opts (lopts s)]>
            (set_ports (fun _ => P') s)), Ok key) /\
    MultiGraph.add_edge (fst key) (snd key) (g s) = Ok d' /\
    forall x y,
      port_cell P' x y =
        if decide (x = node2 /\ y = node1)
        then Some (snd (link_ports s node1 node2 port1 port2))
        else if decide (x = node1 /\ y = node2)
        then Some (fst (link_ports s node1 node2 port1 port2))
        else port_cell (ports s) x y.
Proof.
  intros H1 H2 key.
  destruct (addPort_ok s node1 node2 port1 port2 i1 i2 H1 H2)
    as (P' & Hrun & Hcells).
  destruct (add_edge_run (fst key) (snd key) (g s)) as (d' & Hedge & _).
  exists P', d'. split; [|split; assumption].
  unfold addLink.
  rewrite (bind_Ok _ _ s s s) by reflexivity.
  rewrite (bind_Ok _ _ _ _ _ Hrun).
  fold key.
  set (s3 := set_link_info <[key := or_default opts (lopts s)]>
               (set_ports (fun _ => P') s)).
  rewrite (bind_Ok _ _ _ s3 tt) by reflexivity.
  rewrite (bind_Ok _ _ _ _ _ (g_add_edge_run (fst key) (snd key) s3 d' Hedge)).
  reflexivity.
Qed.

Lemma addLink_unknown (s : Topo.t) (node1 node2 : string)
  (port1 port2 : option Z) (opts : opts_t) :
  node_info s !! node1 = None \/ node_info s !! node2 = None ->
  addLink node1 node2 port1 port2 opts s =
    (set_ports (fun p => ports_ensure node2 (ports_ensure node1 p)) s,
     Raise KeyError).
Proof.
  intros H. unfold addLink.
  rewrite (bind_Ok _ _ s s s) by reflexivity.
  now rewrite (bind_Raise _ _ _ _ _ (addPort_unknown s _ _ port1 port2 H)).
Qed.

End Running.

(** ** Reading the port table *)

Section PortQuery.

Lemma port_found (s : Topo.t) (src dst : string) (sp dp : Z) :
  port_cell (ports s) src dst = Some sp ->
  port_cell (ports s) dst src = Some dp ->
  port src dst s = (s, Ok (Some (sp, dp))).
Proof. intros H1 H2. unfold port. munfold. now rewrite H1, H2. Qed.

Lemma port_not_found (s : Topo.t) (src dst : string) :
  port_cell (ports s) src dst = None -> port src dst s = (s, Ok None).
Proof. intros H. unfold port. munfold. now rewrite H. Qed.

Lemma isSwitch_outcome (s : Topo.t) (n : string) (sw : bool) :
  outcome (isSwitch n s) = Ok sw ->
  exists i, node_info s !! n = Some i /\ sw = info_flag "isSwitch" i.
Proof.
  unfold isSwitch, role_flag. munfold.
  destruct (node_info s !! n) as [i|]; [|discriminate].
  intros [= <-]. eauto.
Qed.

Lemma sorted_pair_same (n : string) : sorted_pair n n = (n, n).
Proof. rewrite Topo_sorted_pair_eq. now destruct (Natural.lt n n). Qed.

End PortQuery.

(** The roles in the star scenario. *)
Example star_roles :
  outcome (switches true star) = Ok ["s1"] /\
  outcome (hosts true star) = Ok ["h1"; "h2"; "h3"] /\
  outcome (links true star) = Ok [("h1", "s1"); ("h2", "s1"); ("h3", "s1")].
Proof. vm_compute. repeat split. Qed.

(** ** Automatic port numbers *)

(** C1: when [addLink] is not given the port of an end point, the port that
    the table records for it is the number of neighbours the end point had
    in the port table before the call, plus 1 if the end point is a switch
    at that moment and plus 0 otherwise.  (For a link from a node to itself
    the table has one cell, which holds the port of the second end point.)
    In the star of one switch and three hosts the ports are (0,1), (0,2)
    and (0,3). *)
Theorem auto_port_assignment :
  (forall (s : Topo.t) (node1 node2 : string) (port1 port2 : option Z)
          (opts : opts_t) (sw1 sw2 : bool),
      outcome (isSwitch node1 s) = Ok sw1 ->
      outcome (isSwitch node2 s) = Ok sw2 ->
      let r := addLink node1 node2 port1 port2 opts s in
      outcome r = Ok (sorted_pair node1 node2) /\
      (port2 = None ->
       port_cell (ports (state_of r)) node2 node1 =
         Some (Z.of_nat (neighbors_recorded s node2) + (if sw2 then 1 else 0))) /\
      (port1 = None -> node1 <> node2 \/ port2 = None ->
       port_cell (ports (state_of r)) node1 node2 =
         Some (Z.of_nat (neighbors_recorded s node1) + (if sw1 then 1 else 0))))
  /\ outcome (port "h1" "s1" star) = Ok (Some (0, 1))
  /\ outcome (port "h2" "s1" star) = Ok (Some (0, 2))
  /\ outcome (port "h3" "s1" star) = Ok (Some (0, 3)).
Proof.
  split; [|repeat split; vm_compute; reflexivity].
  intros s node1 node2 port1 port2 opts sw1 sw2 Hsw1 Hsw2 r.
  destruct (isSwitch_outcome _ _ _ Hsw1) as (i1 & Hi1 & ->).
  destruct (isSwitch_outcome _ _ _ Hsw2) as (i2 & Hi2 & ->).
  destruct (addLink_ok s node1 node2 port1 port2 opts i1 i2 Hi1 Hi2)
    as (P' & d' & Hrun & _ & Hcells).
  subst r. rewrite Hrun. proj_simpl. split; [reflexivity|].
  unfold link_ports, port_base in Hcells. rewrite Hi1, Hi2 in Hcells.
  cbn [fst snd] in Hcells. split.
  - intros ->. rewrite Hcells, decide_True by done. reflexivity.
  - intros -> Hcase. rewrite Hcells.
    destruct (decide (node1 = node2 /\ node2 = node1)) as [[Heq _]|_].
    + destruct Hcase as [Hne | ->]; [contradiction|].
      subst node2. rewrite Hi1 in Hi2. injection Hi2 as <-. reflexivity.
    + rewrite decide_True by done. reflexivity.
Qed.

Lemma auto_port_assignment_witness :
  let s := state_of (addSwitch "s1" ∅ (state_of (addHost "h1" ∅
             (init ∅ ∅ ∅ ∅ ∅ ∅ ∅)))) in
  let r := addLink "h1" "s1" None None ∅ s in
  outcome r = Ok ("h1", "s1") /\
  port_cell (ports (state_of r)) "s1" "h1" = Some 1 /\
  port_cell (ports (state_of r)) "h1" "s1" = Some 0.
Proof.
  intros s r.
  destruct (proj1 auto_port_assignment s "h1" "s1" None None ∅ false true)
    as (H1 & H2 & H3); [vm_compute; reflexivity..|].
  split; [exact H1|]. split; [exact (H2 eq_refl)|].
  exact (H3 eq_refl (or_intror eq_refl)).
Defined.

(** ** An end point that was never added *)

(** C9: [addLink] with an end point that has no metadata raises the lookup
    error of [isSwitch] and leaves the object half updated: both end points
    now have a port table (an empty one where there was none), while the
    graph store, the link metadata and the cells of the port table are as
    before. *)
Theorem addLink_unknown_endpoint (s : Topo.t) (node1 node2 : string)
  (port1 port2 : option Z) (opts : opts_t) :
  node_info s !! node1 = None \/ node_info s !! node2 = None ->
  let r := addLink node1 node2 port1 port2 opts s in
  let s' := state_of r in
  outcome r = Raise KeyError /\
  g s' = g s /\
  link_info s' = link_info s /\
  node_info s' = node_info s /\
  ports s' = ports_ensure node2 (ports_ensure node1 (ports s)) /\
  is_Some (ports s' !! node1) /\
  is_Some (ports s' !! node2) /\
  (ports s !! node1 = None -> ports s' !! node1 = Some ∅) /\
  (ports s !! node2 = None -> ports s' !! node2 = Some ∅) /\
  (ports s !! node1 = None \/ ports s !! node2 = None -> ports s' <> ports s) /\
  (forall a b, port_cell (ports s') a b = port_cell (ports s) a b).
Proof.
  intros H r s'. subst s' r.
  rewrite (addLink_unknown s node1 node2 port1 port2 opts H). proj_simpl.
  assert (E1 : ports_ensure node2 (ports_ensure node1 (ports s)) !! node1 =
               Some (default ∅ (ports s !! node1))).
  { rewrite lookup_ports_ensure, lookup_ensure_default by auto. reflexivity. }
  assert (E2 : ports_ensure node2 (ports_ensure node1 (ports s)) !! node2 =
               Some (default ∅ (ports s !! node2))).
  { rewrite lookup_ensure_default; [|auto].
    rewrite lookup_ports_ensure. destruct (ports s !! node2); [reflexivity|].
    now case_decide. }
  repeat split; try reflexivity.
  - rewrite E1. eauto.
  - rewrite E2. eauto.
  - intros Hn. now rewrite E1, Hn.
  - intros Hn. now rewrite E2, Hn.
  - intros [Hn|Hn] Heq; rewrite Heq in *; congruence.
  - intros a b. now rewrite !port_cell_ensure.
Qed.

Lemma addLink_unknown_endpoint_witness :
  let s := state_of (addHost "h1" ∅ (init ∅ ∅ ∅ ∅ ∅ ∅ ∅)) in
  let r := addLink "h1" "s9" None None ∅ s in
  outcome r = Raise KeyError /\
  g (state_of r) = g s /\
  link_info (state_of r) = link_info s /\
  ports (state_of r) !! "h1" = Some ∅ /\
  ports (state_of r) !! "s9" = Some ∅.
Proof.
  intros s r.
  destruct (addLink_unknown_endpoint s "h1" "s9" None None ∅)
    as (H1 & H2 & H3 & _ & _ & _ & _ & H8 & H9 & _).
  - right. vm_compute. reflexivity.
  - split; [exact H1|]. split; [exact H2|]. split; [exact H3|].
    split; [apply H8 | apply H9]; vm_compute; reflexivity.
Defined.

(** ** Links from a node to itself *)

(** C10: for a node [n] that has metadata, [addLink n n] with the explicit
    ports [p1] and [p2] leaves [p2], the later assignment, in the one cell
    [ports[n][n]], and [port n n] returns [(p2, p2)]. *)
Theorem self_loop_ports (s : Topo.t) (n : string) (p1 p2 : Z) (opts : opts_t) :
  is_Some (node_info s !! n) ->
  let r := addLink n n (Some p1) (Some p2) opts s in
  outcome r = Ok (n, n) /\
  port_cell (ports (state_of r)) n n = Some p2 /\
  port n n (state_of r) = (state_of r, Ok (Some (p2, p2))).
Proof.
  intros [i Hi] r.
  destruct (addLink_ok s n n (Some p1) (Some p2) opts i i Hi Hi)
    as (P' & d' & Hrun & _ & Hcells).
  subst r. rewrite Hrun, sorted_pair_same. proj_simpl.
  assert (Hc : port_cell P' n n = Some p2).
  { rewrite Hcells, decide_True by done. reflexivity. }
  repeat split; [exact Hc|].
  now apply port_found.
Qed.

Lemma self_loop_ports_witness :
  let s := state_of (addNode "n" ∅ (init ∅ ∅ ∅ ∅ ∅ ∅ ∅)) in
  let r := addLink "n" "n" (Some 1) (Some 2) ∅ s in
  outcome r = Ok ("n", "n") /\
  port_cell (ports (state_of r)) "n" "n" = Some 2 /\
  port "n" "n" (state_of r) = (state_of r, Ok (Some (2, 2))).
Proof.
  intros s r. apply (self_loop_ports s "n" 1 2 ∅).
  vm_compute. eauto.
Defined.

(** ** Histories of calls *)

Section Histories.

Lemma between_spec (a b x y : string) :
  between a b (x, y) = true <-> (x = a /\ y = b) \/ (x = b /\ y = a).
Proof.
  unfold between. cbn [fst snd].
  destruct (String.eqb_spec x a), (String.eqb_spec y b),
    (String.eqb_spec x b), (String.eqb_spec y a); simpl; intuition congruence.
Qed.

Lemma between_swap (a b : string) (e : string * string) :
  between a b (snd e, fst e) = between a b e.
Proof.
  destruct e as [x y]. cbn [fst snd].
  apply eq_true_iff_eq. rewrite !between_spec. intuition congruence.
Qed.

Lemma addNode_flagged_ports (name flag : string) (opts : opts_t) (s : Topo.t) :
  ports (state_of (addNode_flagged name flag opts s)) = ports s.
Proof.
  unfold addNode_flagged.
  destruct (opts !! flag), (opts !! "name"), (opts !! "self"); reflexivity.
Qed.

Lemma bind_ret_state {A : Type} (m : M A) (s : Topo.t) :
  state_of ((m;; mret tt) s) = state_of (m s).
Proof. munfold. now destruct (m s) as [s' [a|e]]. Qed.

(** Only [addLink] touches the port table. *)
Lemma call_ports (o : op) (s : Topo.t) :
  (forall n1 n2 p1 p2 opts, o <> AddLink n1 n2 p1 p2 opts) ->
  ports (state_of (call o s)) = ports s.
Proof.
  intros Hnot. destruct o; try reflexivity;
    try (unfold call; rewrite bind_ret_state; apply addNode_flagged_ports).
  exfalso. eapply Hnot. reflexivity.
Qed.

(** One call either leaves the cells of the port table and the history
    as they are, or is an [addLink] that writes the two cells of its end
    points and extends the history. *)
Lemma step_cells (s : Topo.t) (log : list link_record) (o : op) :
  let st' := step (s, log) o in
  (snd st' = log /\
   forall x y,
     port_cell (ports (fst st')) x y = port_cell (ports s) x y)
  \/
  (exists n1 n2 p1 p2 opts,
      o = AddLink n1 n2 p1 p2 opts /\
      is_Some (node_info s !! n1) /\ is_Some (node_info s !! n2) /\
      snd st' = ((n1, n2), link_ports s n1 n2 p1 p2) :: log /\
      forall x y,
        port_cell (ports (fst st')) x y =
          if decide (x = n2 /\ y = n1)
          then Some (snd (link_ports s n1 n2 p1 p2))
          else if decide (x = n1 /\ y = n2)
          then Some (fst (link_ports s n1 n2 p1 p2))
          else port_cell (ports s) x y).
Proof.
  intros st'.
  assert (Hother :
    (forall n1 n2 p1 p2 opts, o <> AddLink n1 n2 p1 p2 opts) ->
    snd st' = log /\
    forall x y, port_cell (ports (fst st')) x y = port_cell (ports s) x y).
  { intros Hnot. pose proof (call_ports o s Hnot) as Hp. subst st'.
    unfold step. cbn [fst snd].
    destruct o; try (split; [reflexivity | intros; cbn [fst]; now rewrite Hp]).
    exfalso. eapply Hnot. reflexivity. }
  destruct o; try (left; apply Hother; discriminate).
  clear Hother. subst st'. unfold step, call. cbn [fst snd].
  destruct (node_info s !! node1) as [i1|] eqn:H1;
    [destruct (node_info s !! node2) as [i2|] eqn:H2|].
  - right.
    destruct (addLink_ok s node1 node2 port1 port2 opts i1 i2 H1 H2)
      as (P' & d' & Hrun & _ & Hcells).
    rewrite (bind_Ok _ _ _ _ _ Hrun).
    exists node1, node2, port1, port2, opts.
    split; [reflexivity|]. split; [eauto|]. split; [eauto|].
    split; [reflexivity|]. exact Hcells.
  - left.
    rewrite (bind_Raise _ _ _ _ _
      (addLink_unknown s node1 node2 port1 port2 opts (or_intror H2))).
    split; [reflexivity|]. intros x y. proj_simpl.
    now rewrite !port_cell_ensure.
  - left.
    rewrite (bind_Raise _ _ _ _ _
      (addLink_unknown s node1 node2 port1 port2 opts (or_introl H1))).
    split; [reflexivity|]. intros x y. proj_simpl.
    now rewrite !port_cell_ensure.
Qed.

Lemma latest_cons (log : list link_record) (n1 n2 a b : string) (sp dp : Z) :
  latest (((n1, n2), (sp, dp)) :: log) a b =
    if decide (n1 = a /\ n2 = b) then Some (sp, dp)
    else if decide (n1 = b /\ n2 = a) then Some (dp, sp)
    else latest log a b.
Proof.
  simpl.
  destruct (String.eqb_spec n1 a), (String.eqb_spec n2 b),
    (String.eqb_spec n1 b), (String.eqb_spec n2 a); simpl;
    repeat case_decide; try reflexivity; exfalso; intuition congruence.
Qed.

(** Every call keeps the invariant of histories. *)
Lemma step_inv (st : Topo.t * list link_record) (o : op) :
  history_inv st -> history_inv (step st o).
Proof.
  destruct st as [s log]. intros (Hsym & Hlatest & Hlinked).
  cbn [fst snd] in *.
  destruct (step_cells s log o) as [[Hlog Hcells] | Hlink].
  - unfold history_inv. rewrite Hlog. split; [|split].
    + intros a b. rewrite !Hcells. apply Hsym.
    + intros a b pa pb Hne Hl. rewrite !Hcells. now apply Hlatest.
    + intros a b. rewrite Hcells. apply Hlinked.
  - destruct Hlink as (n1 & n2 & p1 & p2 & opts & -> & _ & _ & Hlog & Hcells).
    destruct (link_ports s n1 n2 p1 p2) as [sp dp] eqn:Hlp.
    cbn [fst snd] in Hcells.
    unfold history_inv, ports_symmetric. rewrite Hlog.
    split; [|split].
    + intros a b. rewrite !Hcells.
      repeat case_decide; try (split; eauto; fail);
        try apply Hsym; name_contra.
    + intros a b pa pb Hne. rewrite latest_cons, !Hcells.
      repeat case_decide; intros Hl;
        try name_contra;
        try (injection Hl as <- <-; split; reflexivity).
      now apply Hlatest.
    + intros a b. rewrite Hcells. unfold linked. cbn [existsb fst].
      intros Hc. apply orb_true_iff.
      destruct (between a b (n1, n2)) eqn:Hb; [now left|right].
      apply Hlinked.
      assert (Hn : ~ ((n1 = a /\ n2 = b) \/ (n1 = b /\ n2 = a))).
      { rewrite <- between_spec. congruence. }
      repeat case_decide; try assumption; name_contra.
Qed.

Lemma fold_step_inv (ops : list op) (st : Topo.t * list link_record) :
  history_inv st -> history_inv (fold_left step ops st).
Proof.
  revert st. induction ops as [|o ops IH]; intros st Hst; [exact Hst|].
  simpl. apply IH, step_inv, Hst.
Qed.

Lemma init_inv (ho so lo lro lso tpo hio : opts_t) :
  history_inv (init ho so lo lro lso tpo hio, []).
Proof.
  unfold history_inv, ports_symmetric, port_cell. cbn [fst snd ports init].
  repeat split; intros *; rewrite ?lookup_empty;
    try (intros [? ?]; discriminate); try discriminate.
Qed.

Lemma run_inv (ho so lo lro lso tpo hio : opts_t) (ops : list op) :
  history_inv (run ops (init ho so lo lro lso tpo hio)).
Proof. apply fold_step_inv, init_inv. Qed.

(** Calls that add no link between [a] and [b] keep their two cells. *)
Lemma fold_step_cells (a b : string) (ops : list op)
  (st : Topo.t * list link_record) :
  forallb (not_link_between a b) ops = true ->
  port_cell (ports (fst (fold_left step ops st))) a b =
    port_cell (ports (fst st)) a b /\
  port_cell (ports (fst (fold_left step ops st))) b a =
    port_cell (ports (fst st)) b a.
Proof.
  revert st. induction ops as [|o ops IH]; intros st Hall; [now split|].
  simpl in Hall. apply andb_true_iff in Hall as [Ho Hall].
  simpl. destruct (IH (step st o) Hall) as [-> ->].
  destruct st as [s log]. cbn [fst].
  destruct (step_cells s log o) as [[_ Hcells] | Hlink].
  - now rewrite !Hcells.
  - destruct Hlink as (n1 & n2 & p1 & p2 & opts & -> & _ & _ & _ & Hcells).
    simpl in Ho. apply negb_true_iff in Ho.
    assert (Hn : ~ ((n1 = a /\ n2 = b) \/ (n1 = b /\ n2 = a))).
    { rewrite <- between_spec. congruence. }
    rewrite !Hcells.
    repeat case_decide; try name_contra.
    now split.
Qed.

End Histories.

(** ** The invariant of the port table *)

(** C3 (as amended): in every state reached from a new [Topo] by calls of
    [addNode], the role adders, [addLink], [setlinkInfo] and [setNodeInfo],
    the port table is symmetric (there is an entry for [b] under [a] exactly
    when there is one for [a] under [b]), and for two different nodes it
    holds the ports of the most recent link added between them.  Each call
    preserves these properties. *)
Theorem port_table_invariant :
  (forall (ho so lo lro lso tpo hio : opts_t) (ops : list op),
      let st := run ops (init ho so lo lro lso tpo hio) in
      ports_symmetric (fst st) /\
      (forall a b pa pb,
          a <> b -> latest (snd st) a b = Some (pa, pb) ->
          port_cell (ports (fst st)) a b = Some pa /\
          port_cell (ports (fst st)) b a = Some pb))
  /\ (forall st o, history_inv st -> history_inv (step st o)).
Proof.
  split; [|exact step_inv].
  intros ho so lo lro lso tpo hio ops st.
  destruct (run_inv ho so lo lro lso tpo hio ops) as (Hsym & Hlatest & _).
  split; [exact Hsym | exact Hlatest].
Qed.

Lemma port_table_invariant_witness :
  latest (snd (run star_calls (init ∅ ∅ ∅ ∅ ∅ ∅ ∅))) "s1" "h2" = Some (2, 0) /\
  port_cell (ports star) "s1" "h2" = Some 2 /\
  port_cell (ports star) "h2" "s1" = Some 0.
Proof.
  split; [vm_compute; reflexivity|].
  apply (proj2 (proj1 port_table_invariant ∅ ∅ ∅ ∅ ∅ ∅ ∅ star_calls)).
  - discriminate.
  - vm_compute. reflexivity.
Defined.

(** C3 (as stated) fails for a link from a node to itself: the link is
    recorded with the ports (1, 2), but the one cell [ports[n][n]] holds 2,
    not the port 1 of the first end point. *)
Lemma port_table_self_loop_counterexample :
  let st :=
    run [AddNode "n" ∅; AddLink "n" "n" (Some 1) (Some 2) ∅]
        (init ∅ ∅ ∅ ∅ ∅ ∅ ∅) in
  In (("n", "n"), (1, 2)) (snd st) /\
  port_cell (ports (fst st)) "n" "n" = Some 2 /\
  ~ (port_cell (ports (fst st)) "n" "n" = Some 1 /\
     port_cell (ports (fst st)) "n" "n" = Some 2).
Proof.
  vm_compute. split; [now left|]. split; [reflexivity|].
  intros [H _]. discriminate H.
Qed.

(** ** Explicit ports *)

(** C4: after [addLink A B] with the explicit ports [p1] and [p2] on two
    different nodes that have metadata, and after any further calls that add
    no other link between [A] and [B], [port A B] returns [(p1, p2)] and
    [port B A] returns [(p2, p1)]. *)
Theorem explicit_ports (s : Topo.t) (A B : string) (p1 p2 : Z) (opts : opts_t)
  (later : list op) :
  A <> B ->
  is_Some (node_info s !! A) ->
  is_Some (node_info s !! B) ->
  forallb (not_link_between A B) later = true ->
  let s1 := state_of (addLink A B (Some p1) (Some p2) opts s) in
  let s' := fst (run later s1) in
  port A B s' = (s', Ok (Some (p1, p2))) /\
  port B A s' = (s', Ok (Some (p2, p1))).
Proof.
  intros Hne [iA HA] [iB HB] Hlater s1 s'.
  destruct (addLink_ok s A B (Some p1) (Some p2) opts iA iB HA HB)
    as (P' & d' & Hrun & _ & Hcells).
  destruct (fold_step_cells A B later (s1, []) Hlater) as [HAB HBA].
  fold (run later s1) in HAB, HBA. fold s' in HAB, HBA.
  cbn [fst] in HAB, HBA.
  assert (H1 : port_cell (ports s1) A B = Some p1).
  { subst s1. rewrite Hrun. proj_simpl. rewrite Hcells.
    rewrite decide_False by (intros [? ?]; congruence).
    rewrite decide_True by done. reflexivity. }
  assert (H2 : port_cell (ports s1) B A = Some p2).
  { subst s1. rewrite Hrun. proj_simpl. rewrite Hcells.
    rewrite decide_True by done. reflexivity. }
  rewrite H1 in HAB. rewrite H2 in HBA.
  split; now apply port_found.
Qed.

Lemma explicit_ports_witness :
  let s := state_of (addSwitch "s1" ∅ (state_of (addHost "h1" ∅
             (init ∅ ∅ ∅ ∅ ∅ ∅ ∅)))) in
  let s1 := state_of (addLink "h1" "s1" (Some 0) (Some 3) ∅ s) in
  let s' := fst (run [AddHost "h2" ∅; AddLink "h2" "s1" None None ∅] s1) in
  port "h1" "s1" s' = (s', Ok (Some (0, 3))) /\
  port "s1" "h1" s' = (s', Ok (Some (3, 0))).
Proof.
  intros s s1 s'.
  apply (explicit_ports s "h1" "s1" 0 3 ∅
           [AddHost "h2" ∅; AddLink "h2" "s1" None None ∅]).
  - discriminate.
  - vm_compute. eauto.
  - vm_compute. eauto.
  - vm_compute. reflexivity.
Defined.

(** ** The query [port] *)

(** C7: [port src dst] returns the two ports when the table has both
    entries, and returns [None] without raising when it has no entry for
    [dst] under [src]; in a state reached by calls of the interface this is
    the case when no link joins the two nodes.  In such a state the
    assertion of [port] holds: an entry for [dst] under [src] comes with the
    entry for [src] under [dst], and the pair is returned. *)
Theorem port_lookup :
  (forall (s : Topo.t) (src dst : string) (sp dp : Z),
      port_cell (ports s) src dst = Some sp ->
      port_cell (ports s) dst src = Some dp ->
      port src dst s = (s, Ok (Some (sp, dp))))
  /\ (forall (s : Topo.t) (src dst : string),
      port_cell (ports s) src dst = None -> port src dst s = (s, Ok None))
  /\ (forall (ho so lo lro lso tpo hio : opts_t) (ops : list op)
             (src dst : string),
      let st := run ops (init ho so lo lro lso tpo hio) in
      (linked (snd st) src dst = false ->
       port src dst (fst st) = (fst st, Ok None)) /\
      (forall sp,
          port_cell (ports (fst st)) src dst = Some sp ->
          exists dp,
            port_cell (ports (fst st)) dst src = Some dp /\
            port src dst (fst st) = (fst st, Ok (Some (sp, dp))))).
Proof.
  split; [exact port_found|]. split; [exact port_not_found|].
  intros ho so lo lro lso tpo hio ops src dst st.
  destruct (run_inv ho so lo lro lso tpo hio ops) as (Hsym & _ & Hlinked).
  fold st in Hsym, Hlinked. split.
  - intros Hno. apply port_not_found.
    destruct (port_cell (ports (fst st)) src dst) eqn:Hc; [|reflexivity].
    rewrite Hlinked in Hno by (rewrite Hc; eauto). discriminate.
  - intros sp Hsp.
    destruct (proj1 (Hsym src dst)) as [dp Hdp]; [rewrite Hsp; eauto|].
    exists dp. split; [exact Hdp|]. now apply port_found.
Qed.

Lemma port_lookup_witness :
  port "h1" "s1" star = (star, Ok (Some (0, 1))) /\
  port "h1" "h2" star = (star, Ok None) /\
  exists dp,
    port_cell (ports star) "h3" "s1" = Some dp /\
    port "s1" "h3" star = (star, Ok (Some (3, dp))).
Proof.
  split; [|split].
  - apply (proj1 port_lookup star "h1" "s1" 0 1); vm_compute; reflexivity.
  - apply (proj1 (proj2 (proj2 port_lookup) ∅ ∅ ∅ ∅ ∅ ∅ ∅ star_calls "h1" "h2")).
    vm_compute. reflexivity.
  - apply (proj2 (proj2 (proj2 port_lookup) ∅ ∅ ∅ ∅ ∅ ∅ ∅ star_calls "s1" "h3")).
    vm_compute. reflexivity.
Defined.

(** ** Parallel links *)

Section Counting.

Lemma count_links_cons (a b : string) (e : string * string)
  (l : list (string * string)) :
  count_links a b (e :: l) =
    if between a b e then S (count_links a b l) else count_links a b l.
Proof. unfold count_links. simpl. now destruct (between a b e). Qed.

Lemma count_links_perm (a b : string) (l l' : list (string * string)) :
  Permutation l l' -> count_links a b l = count_links a b l'.
Proof.
  induction 1 as [|e l l' _ IH|e e' l|l l' l'' _ IH1 _ IH2].
  - reflexivity.
  - rewrite !count_links_cons, IH. reflexivity.
  - rewrite !count_links_cons.
    now destruct (between a b e), (between a b e').
  - now rewrite IH1.
Qed.

Lemma between_sorted_pair (a b x y : string) :
  between a b (sorted_pair x y) = between a b (x, y).
Proof.
  rewrite Topo_sorted_pair_eq. destruct (Natural.lt y x); [|reflexivity].
  apply (between_swap a b (x, y)).
Qed.

Lemma between_store_pair (a b x y : string) :
  between a b (MultiGraph.sorted_pair x y) = between a b (x, y).
Proof.
  rewrite MultiGraph_sorted_pair_eq. destruct (String.ltb y x); [|reflexivity].
  apply (between_swap a b (x, y)).
Qed.

Lemma between_same (a b : string) : between a b (a, b) = true.
Proof. apply between_spec. now left. Qed.

(** Sorting the pairs of [links] keeps the number of pairs that join
    [a] and [b]. *)
Lemma count_links_sorted (a b : string) (l : list (string * string)) :
  count_links a b (map (fun e => sorted_pair (fst e) (snd e)) l) =
    count_links a b l.
Proof.
  induction l as [|[x y] l IH]; [reflexivity|].
  cbn [map fst snd]. now rewrite !count_links_cons, between_sorted_pair, IH.
Qed.

Lemma add_edge_count (a b x y : string) (d d' : MultiGraph.t) :
  MultiGraph.add_edge x y d = Ok d' ->
  between a b (x, y) = true ->
  count_links a b (MultiGraph.edges d') =
    S (count_links a b (MultiGraph.edges d)).
Proof.
  intros Hadd Hb.
  destruct (add_edge_run x y d) as (d'' & Hadd' & Hperm).
  rewrite Hadd in Hadd'. injection Hadd' as <-.
  rewrite (count_links_perm _ _ _ _ Hperm), count_links_cons.
  now rewrite between_store_pair, Hb.
Qed.

Lemma links_run (sort : bool) (s : Topo.t) :
  exists l,
    links sort s = (s, Ok l) /\
    forall a b, count_links a b l = count_links a b (MultiGraph.edges (g s)).
Proof.
  unfold links. munfold. destruct sort; cbn [negb]; eexists;
    (split; [reflexivity|]); intros a b; [|reflexivity].
  rewrite (count_links_perm _ _ _ _ (py_sorted_perm _ _)).
  apply count_links_sorted.
Qed.

End Counting.

(** A second [addLink A B], with the names in the order of the first,
    replaces the options stored under the key of the pair and the ports of
    the pair by those of the second link, while the graph store keeps both
    edges, so that [links] lists one more pair between [A] and [B] for each
    of the two calls. *)
Theorem parallel_link_overwrites (s : Topo.t) (A B : string)
  (p1 p2 q1 q2 : option Z) (o1 o2 : opts_t) :
  is_Some (node_info s !! A) ->
  is_Some (node_info s !! B) ->
  let key := sorted_pair A B in
  let r1 := addLink A B p1 p2 o1 s in
  let s1 := state_of r1 in
  let r2 := addLink A B q1 q2 o2 s1 in
  let s2 := state_of r2 in
  let second := link_ports s1 A B q1 q2 in
  outcome r1 = Ok key /\
  outcome r2 = Ok key /\
  link_info s1 !! key = Some (or_default o1 (lopts s)) /\
  link_info s2 !! key = Some (or_default o2 (lopts s)) /\
  linkInfo A B s2 = (s2, Ok (or_default o2 (lopts s))) /\
  port A B s2 =
    (s2, Ok (Some (if decide (A = B) then snd second else fst second,
                   snd second))) /\
  count_links A B (MultiGraph.edges (g s2)) =
    (2 + count_links A B (MultiGraph.edges (g s)))%nat /\
  forall sort, exists l0 l2,
    links sort s = (s, Ok l0) /\
    links sort s2 = (s2, Ok l2) /\
    count_links A B l2 = (2 + count_links A B l0)%nat.
Proof.
  intros [iA HA] [iB HB] key r1 s1 r2 s2 second.
  destruct (addLink_ok s A B p1 p2 o1 iA iB HA HB)
    as (P1 & d1 & Hrun1 & Hedge1 & _).
  fold key in Hrun1, Hedge1. fold r1 in Hrun1.
  assert (Hs1 : s1 =
    set_g (fun _ => d1)
      (set_link_info <[key := or_default o1 (lopts s)]>
         (set_ports (fun _ => P1) s))).
  { subst s1. now rewrite Hrun1. }
  assert (HA1 : node_info s1 !! A = Some iA) by (rewrite Hs1; exact HA).
  assert (HB1 : node_info s1 !! B = Some iB) by (rewrite Hs1; exact HB).
  destruct (addLink_ok s1 A B q1 q2 o2 iA iB HA1 HB1)
    as (P2 & d2 & Hrun2 & Hedge2 & Hcells2).
  fold key in Hrun2, Hedge2. fold r2 in Hrun2. fold second in Hcells2.
  assert (Hl1 : lopts s1 = lopts s) by (rewrite Hs1; reflexivity).
  assert (Hg1 : g s1 = d1) by (rewrite Hs1; reflexivity).
  rewrite Hl1 in Hrun2. rewrite Hg1 in Hedge2.
  assert (Hs2 : s2 =
    set_g (fun _ => d2)
      (set_link_info <[key := or_default o2 (lopts s)]>
         (set_ports (fun _ => P2) s1))).
  { subst s2. now rewrite Hrun2. }
  assert (Hkey : between A B (fst key, snd key) = true).
  { rewrite <- surjective_pairing. subst key.
    rewrite between_sorted_pair. apply between_same. }
  assert (Hinfo : link_info s2 !! key = Some (or_default o2 (lopts s))).
  { rewrite Hs2. proj_simpl. apply lookup_insert_eq. }
  assert (Hcount : count_links A B (MultiGraph.edges (g s2)) =
                   (2 + count_links A B (MultiGraph.edges (g s)))%nat).
  { rewrite Hs2. proj_simpl.
    rewrite (add_edge_count A B _ _ _ _ Hedge2 Hkey).
    rewrite (add_edge_count A B _ _ _ _ Hedge1 Hkey). reflexivity. }
  split; [now rewrite Hrun1|]. split; [now rewrite Hrun2|].
  split; [rewrite Hs1; proj_simpl; apply lookup_insert_eq|].
  split; [exact Hinfo|].
  split; [unfold linkInfo; munfold; fold key; now rewrite Hinfo|].
  split.
  - apply port_found; rewrite Hs2; proj_simpl; rewrite Hcells2.
    + destruct (decide (A = B)) as [->|Hne].
      * rewrite decide_True by done. reflexivity.
      * rewrite decide_False by (intros [? ?]; congruence).
        rewrite decide_True by done. reflexivity.
    + rewrite decide_True by done. reflexivity.
  - split; [exact Hcount|]. intros sort.
    destruct (links_run sort s) as (l0 & Hl0 & Hc0).
    destruct (links_run sort s2) as (l2 & Hl2 & Hc2).
    exists l0, l2. split; [exact Hl0|]. split; [exact Hl2|].
    now rewrite Hc2, Hc0.
Qed.

Lemma parallel_link_overwrites_witness :
  let s := state_of (addSwitch "s2" ∅ (state_of (addSwitch "s1" ∅
             (init ∅ ∅ ∅ ∅ ∅ ∅ ∅)))) in
  let s1 := state_of (addLink "s1" "s2" (Some 1) (Some 2) {["bw" := VInt 10]} s) in
  let s2 := state_of (addLink "s1" "s2" (Some 7) (Some 8) {["bw" := VInt 20]} s1) in
  link_info s2 !! ("s1", "s2") = Some {["bw" := VInt 20]} /\
  port "s1" "s2" s2 = (s2, Ok (Some (7, 8))) /\
  count_links "s1" "s2" (MultiGraph.edges (g s2)) = 2%nat.
Proof.
  intros s s1 s2.
  destruct (parallel_link_overwrites s "s1" "s2" (Some 1) (Some 2)
              (Some 7) (Some 8) {["bw" := VInt 10]} {["bw" := VInt 20]})
    as (_ & _ & _ & H4 & _ & H6 & H7 & _).
  - vm_compute. eauto.
  - vm_compute. eauto.
  - split; [exact H4|]. split; [exact H6|exact H7].
Defined.

(** A second link given in the other order has the same key, and so
    replaces the options as well, when the natural keys of the two names
    differ. *)
Lemma reversed_link_same_key (s : Topo.t) (A B : string)
  (q1 q2 : option Z) (o2 : opts_t) :
  A = B \/ Natural.lt A B = true \/ Natural.lt B A = true ->
  is_Some (node_info s !! A) ->
  is_Some (node_info s !! B) ->
  let r := addLink B A q1 q2 o2 s in
  outcome r = Ok (sorted_pair A B) /\
  link_info (state_of r) !! sorted_pair A B = Some (or_default o2 (lopts s)).
Proof.
  intros Hkeys [iA HA] [iB HB] r.
  destruct (addLink_ok s B A q1 q2 o2 iB iA HB HA) as (P & d & Hrun & _).
  subst r. rewrite Hrun, (Topo_sorted_pair_comm A B Hkeys). proj_simpl.
  split; [reflexivity | apply lookup_insert_eq].
Qed.

(** A second link given in the other order, [addLink B A], does the same
    when the natural keys of the two names differ (or the names are equal):
    both links have one key. *)
Lemma parallel_link_reversed (s : Topo.t) (A B : string)
  (p1 p2 q1 q2 : option Z) (o1 o2 : opts_t) :
  A = B \/ Natural.lt A B = true \/ Natural.lt B A = true ->
  is_Some (node_info s !! A) ->
  is_Some (node_info s !! B) ->
  let key := sorted_pair A B in
  let s1 := state_of (addLink A B p1 p2 o1 s) in
  let r2 := addLink B A q1 q2 o2 s1 in
  let s2 := state_of r2 in
  let second := link_ports s1 B A q1 q2 in
  outcome r2 = Ok key /\
  link_info s1 !! key = Some (or_default o1 (lopts s)) /\
  link_info s2 !! key = Some (or_default o2 (lopts s)) /\
  linkInfo A B s2 = (s2, Ok (or_default o2 (lopts s))) /\
  linkInfo B A s2 = (s2, Ok (or_default o2 (lopts s))) /\
  port B A s2 =
    (s2, Ok (Some (if decide (B = A) then snd second else fst second,
                   snd second))) /\
  count_links A B (MultiGraph.edges (g s2)) =
    (2 + count_links A B (MultiGraph.edges (g s)))%nat.
Proof.
  intros Hkeys [iA HA] [iB HB] key s1 r2 s2 second.
  pose proof (Topo_sorted_pair_comm A B Hkeys) as Hcomm. fold key in Hcomm.
  destruct (addLink_ok s A B p1 p2 o1 iA iB HA HB)
    as (P1 & d1 & Hrun1 & Hedge1 & _).
  fold key in Hrun1, Hedge1.
  assert (Hs1 : s1 =
    set_g (fun _ => d1)
      (set_link_info <[key := or_default o1 (lopts s)]>
         (set_ports (fun _ => P1) s))).
  { subst s1. now rewrite Hrun1. }
  assert (HA1 : node_info s1 !! A = Some iA) by (rewrite Hs1; exact HA).
  assert (HB1 : node_info s1 !! B = Some iB) by (rewrite Hs1; exact HB).
  destruct (addLink_ok s1 B A q1 q2 o2 iB iA HB1 HA1)
    as (P2 & d2 & Hrun2 & Hedge2 & Hcells2).
  rewrite <- Hcomm in Hrun2, Hedge2.
  fold r2 in Hrun2. fold second in Hcells2.
  assert (Hl1 : lopts s1 = lopts s) by (rewrite Hs1; reflexivity).
  assert (Hg1 : g s1 = d1) by (rewrite Hs1; reflexivity).
  rewrite Hl1 in Hrun2. rewrite Hg1 in Hedge2.
  assert (Hs2 : s2 =
    set_g (fun _ => d2)
      (set_link_info <[key := or_default o2 (lopts s)]>
         (set_ports (fun _ => P2) s1))).
  { subst s2. now rewrite Hrun2. }
  assert (Hkey : between A B (fst key, snd key) = true).
  { rewrite <- surjective_pairing. subst key.
    rewrite between_sorted_pair. apply between_same. }
  assert (Hinfo : link_info s2 !! key = Some (or_default o2 (lopts s))).
  { rewrite Hs2. proj_simpl. apply lookup_insert_eq. }
  split; [now rewrite Hrun2|].
  split; [rewrite Hs1; proj_simpl; apply lookup_insert_eq|].
  split; [exact Hinfo|].
  split; [unfold linkInfo; munfold; fold key; now rewrite Hinfo|].
  split; [unfold linkInfo; munfold; rewrite <- Hcomm; now rewrite Hinfo|].
  split.
  - apply port_found; rewrite Hs2; proj_simpl; rewrite Hcells2.
    + destruct (decide (B = A)) as [->|Hne].
      * rewrite decide_True by done. reflexivity.
      * rewrite decide_False by (intros [? ?]; congruence).
        rewrite decide_True by done. reflexivity.
    + rewrite decide_True by done. reflexivity.
  - rewrite Hs2. proj_simpl.
    rewrite (add_edge_count A B _ _ _ _ Hedge2 Hkey).
    rewrite (add_edge_count A B _ _ _ _ Hedge1 Hkey). reflexivity.
Qed.

(** C5 at the names ["h1"] and ["h01"]: their natural keys are equal, so
    the stable sort keeps the order of the arguments, and a second link
    given as [addLink "h01" "h1"] has a key of its own.  The ports of the
    pair are those of the second link and the store has both edges, but
    the options of the first link are still stored under its key, and
    [linkInfo "h1" "h01"] still returns them. *)
Theorem parallel_link_tied_names :
  let first : opts_t := {["bw" := VInt 10]} in
  let second : opts_t := {["bw" := VInt 20]} in
  let s :=
    fst (run [AddNode "h1" ∅; AddNode "h01" ∅;
              AddLink "h1" "h01" (Some 1) (Some 2) first;
              AddLink "h01" "h1" (Some 7) (Some 8) second]
             (init ∅ ∅ ∅ ∅ ∅ ∅ ∅)) in
  Natural.natural "h1" = Natural.natural "h01" /\
  sorted_pair "h1" "h01" = ("h1", "h01") /\
  sorted_pair "h01" "h1" = ("h01", "h1") /\
  link_info s !! ("h1", "h01") = Some first /\
  link_info s !! ("h01", "h1") = Some second /\
  outcome (linkInfo "h1" "h01" s) = Ok first /\
  outcome (linkInfo "h01" "h1" s) = Ok second /\
  outcome (port "h01" "h1" s) = Ok (Some (7, 8)) /\
  outcome (port "h1" "h01" s) = Ok (Some (8, 7)) /\
  MultiGraph.edges (g s) = [("h01", "h1"); ("h01", "h1")].
Proof. vm_compute. repeat split. Qed.

(** ** Link metadata *)

(** For two names whose natural keys differ (or that are equal),
    [setlinkInfo] followed by [linkInfo] returns the metadata that was set,
    in whichever order the names are given to either call. *)
Lemma linkInfo_roundtrip (s : Topo.t) (a b : string) (m : opts_t) :
  a = b \/ Natural.lt a b = true \/ Natural.lt b a = true ->
  let s1 := state_of (setlinkInfo a b m s) in
  let s2 := state_of (setlinkInfo b a m s) in
  linkInfo a b s1 = (s1, Ok m) /\
  linkInfo b a s1 = (s1, Ok m) /\
  linkInfo a b s2 = (s2, Ok m) /\
  linkInfo b a s2 = (s2, Ok m).
Proof.
  intros Hkeys s1 s2. subst s1 s2.
  unfold linkInfo, setlinkInfo. munfold. proj_simpl.
  rewrite <- (Topo_sorted_pair_comm a b Hkeys), !lookup_insert_eq.
  repeat split.
Qed.

(** C6 at the names ["h1"] and ["h01"]: their natural keys are equal, so
    the stable sort keeps the order of the arguments and each order has a
    key of its own.  After a link is added and its metadata set with the
    names in one order, [linkInfo] with the names in the other order raises
    [KeyError]. *)
Theorem linkInfo_tied_names :
  let m : opts_t := {["bw" := VInt 10]} in
  let s :=
    fst (run [AddNode "h1" ∅; AddNode "h01" ∅;
              AddLink "h1" "h01" None None ∅;
              SetlinkInfo "h1" "h01" m]
             (init ∅ ∅ ∅ ∅ ∅ ∅ ∅)) in
  Natural.natural "h1" = Natural.natural "h01" /\
  sorted_pair "h1" "h01" = ("h1", "h01") /\
  sorted_pair "h01" "h1" = ("h01", "h1") /\
  outcome (linkInfo "h1" "h01" s) = Ok m /\
  outcome (linkInfo "h01" "h1" s) = Raise KeyError.
Proof. vm_compute. repeat split. Qed.

(** ** Node metadata *)

(** C8 (as amended): for a name that has an entry in [node_info], [nodeInfo]
    returns an empty dictionary when the entry is [None] and the stored
    dictionary otherwise; for a name without an entry it raises [KeyError].
    [setNodeInfo name info] makes [info] the entry of [name] and leaves the
    other entries as they are. *)
Theorem nodeInfo_setNodeInfo (s : Topo.t) (name : string) :
  (node_info s !! name = Some None -> nodeInfo name s = (s, Ok ∅)) /\
  (forall info,
      node_info s !! name = Some (Some info) -> nodeInfo name s = (s, Ok info)) /\
  (node_info s !! name = None -> nodeInfo name s = (s, Raise KeyError)) /\
  (forall info,
      let r := setNodeInfo name info s in
      outcome r = Ok tt /\
      node_info (state_of r) !! name = Some info /\
      (forall other, other <> name ->
         node_info (state_of r) !! other = node_info s !! other) /\
      nodeInfo name (state_of r) = (state_of r, Ok (default ∅ info))).
Proof.
  unfold nodeInfo, setNodeInfo. munfold. proj_simpl.
  split; [intros ->; reflexivity|].
  split; [intros info ->; reflexivity|].
  split; [intros ->; reflexivity|].
  intros info. split; [reflexivity|].
  rewrite lookup_insert_eq. split; [reflexivity|]. split.
  - intros other Hne. now apply lookup_insert_ne.
  - now destruct info.
Qed.

Lemma nodeInfo_setNodeInfo_witness :
  let s := state_of (setNodeInfo "h1" None (state_of (addHost "h1" ∅
             (init ∅ ∅ ∅ ∅ ∅ ∅ ∅)))) in
  nodeInfo "h1" s = (s, Ok ∅) /\
  nodeInfo "h2" s = (s, Raise KeyError).
Proof.
  intros s. split.
  - apply (proj1 (nodeInfo_setNodeInfo s "h1")). vm_compute. reflexivity.
  - apply (proj1 (proj2 (proj2 (nodeInfo_setNodeInfo s "h2")))).
    vm_compute. reflexivity.
Defined.

(** C8 (as stated) fails for a name that was never added: its metadata is
    absent, and [nodeInfo] raises instead of returning an empty
    dictionary. *)
Lemma nodeInfo_unknown_counterexample :
  let s := state_of (addHost "h1" ∅ (init ∅ ∅ ∅ ∅ ∅ ∅ ∅)) in
  node_info s !! "h2" = None /\
  outcome (nodeInfo "h2" s) = Raise KeyError /\
  outcome (nodeInfo "h2" s) <> Ok ∅.
Proof. vm_compute. repeat split. discriminate. Qed.

(** * Further properties of the code *)

(** ** The graph store on its own *)

Section StoreFacts.

Import MultiGraph.

Lemma contains_In (n : string) (d : MultiGraph.t) :
  contains n d = true <-> In n (nodes d).
Proof.
  induction d as [|[k v] d IH]; simpl; [split; [discriminate|tauto]|].
  destruct (String.eqb_spec k n) as [->|Hne].
  - split; auto.
  - rewrite IH. split; [auto|]. intros [H|H]; [congruence|exact H].
Qed.

Lemma nodes_add_node (n : string) (d : MultiGraph.t) :
  nodes (add_node n d) = if contains n d then nodes d else nodes d ++ [n].
Proof.
  unfold add_node, nodes. destruct (contains n d); [reflexivity|].
  now rewrite map_app.
Qed.

Lemma In_nodes_add_node (n m : string) (d : MultiGraph.t) :
  In m (nodes (add_node n d)) <-> m = n \/ In m (nodes d).
Proof.
  rewrite nodes_add_node. destruct (contains n d) eqn:Hc.
  - apply contains_In in Hc. split; [auto|]. intros [->|H]; assumption.
  - rewrite in_app_iff. simpl. split.
    + intros [H|[H|[]]]; auto.
    + intros [H|H]; auto.
Qed.

Lemma NoDup_add_node (n : string) (d : MultiGraph.t) :
  NoDup (nodes d) -> NoDup (nodes (add_node n d)).
Proof.
  intros Hnd. rewrite nodes_add_node. destruct (contains n d) eqn:Hc;
    [exact Hnd|].
  apply NoDup_app. split; [exact Hnd|]. split.
  - intros x Hx Hin. apply list_elem_of_In in Hx, Hin.
    destruct Hin as [->|[]].
    apply contains_In in Hx. congruence.
  - apply NoDup_cons. split; [intros H; apply list_elem_of_In in H; destruct H|].
    apply NoDup_nil. exact I.
Qed.

Lemma contains_add_node (n m : string) (d : MultiGraph.t) :
  contains m d = true -> contains m (add_node n d) = true.
Proof.
  rewrite !contains_In, In_nodes_add_node. auto.
Qed.

Lemma In_edges_getitem (src dest : string) (d : MultiGraph.t) :
  NoDup (nodes d) ->
  In (src, dest) (edges d) <->
  exists adj, getitem src d = Some adj /\ In dest adj.
Proof.
  induction d as [|[k v] d IH]; intros Hnd.
  - simpl. split; [tauto|]. intros (adj & H & _). discriminate.
  - apply NoDup_cons in Hnd as [Hk Hnd].
    change (edges ((k, v) :: d))
      with (map (fun dest0 => (k, dest0)) v ++ edges d).
    rewrite in_app_iff, in_map_iff. cbn [getitem].
    destruct (String.eqb_spec k src) as [->|Hne].
    + split.
      * intros [(x & [= <-] & Hx) | Hin]; [eauto|].
        exfalso. apply Hk. apply list_elem_of_In.
        apply (IH Hnd) in Hin as (adj & Hget & _).
        apply (proj1 (contains_In src d)).
        rewrite contains_getitem, Hget. reflexivity.
      * intros (adj & [= <-] & Hin). left. eauto.
    + rewrite (IH Hnd). split; [|auto].
      intros [(x & [= Heq _] & _) | H]; [congruence | exact H].
Qed.

Lemma add_edge_result (a b : string) (d : MultiGraph.t) :
  exists src dest,
    String.leb src dest = true /\
    exists d',
      add_edge a b d = Ok d' /\
      nodes d' = nodes (add_node dest (add_node src d)) /\
      Permutation (edges d') ((src, dest) :: edges d).
Proof.
  unfold add_edge. rewrite MultiGraph_sorted_pair_eq.
  destruct (String.ltb b a) eqn:E.
  - exists b, a. split; [now apply string_ltb_leb|].
    destruct (add_edge_ordered b a d) as (d' & -> & Hn & _ & _ & Hp).
    exists d'. now repeat split.
  - exists a, b. split; [now apply string_not_ltb_leb|].
    destruct (add_edge_ordered a b d) as (d' & -> & Hn & _ & _ & Hp).
    exists d'. now repeat split.
Qed.

End StoreFacts.

(** X1: registering a node twice is the same as registering it once, and
    registering a node changes no adjacency list and no edge. *)
Theorem add_node_idempotent (n : string) (d : MultiGraph.t) :
  MultiGraph.add_node n (MultiGraph.add_node n d) = MultiGraph.add_node n d /\
  (forall m adj,
      MultiGraph.getitem m d = Some adj ->
      MultiGraph.getitem m (MultiGraph.add_node n d) = Some adj) /\
  MultiGraph.getitem n (MultiGraph.add_node n d) =
    Some (default [] (MultiGraph.getitem n d)) /\
  MultiGraph.edges (MultiGraph.add_node n d) = MultiGraph.edges d.
Proof.
  split; [|split; [|split]].
  - unfold MultiGraph.add_node at 1. now rewrite contains_add_node_same.
  - intros m adj H. now rewrite getitem_add_node, H.
  - rewrite getitem_add_node, String.eqb_refl.
    now destruct (MultiGraph.getitem n d).
  - apply edges_add_node.
Qed.

Lemma add_node_idempotent_witness :
  let d := [("s1", ["s2"]); ("s2", [])] in
  MultiGraph.getitem "s1" (MultiGraph.add_node "s2" d) = Some ["s2"].
Proof.
  intros d. apply (proj1 (proj2 (add_node_idempotent "s2" d)) "s1" ["s2"]).
  reflexivity.
Defined.

Lemma store_ok_init : store_ok MultiGraph.init.
Proof. split; [apply NoDup_nil; exact I | intros src dest []]. Qed.

Lemma store_ok_add_node (n : string) (d : MultiGraph.t) :
  store_ok d -> store_ok (MultiGraph.add_node n d).
Proof.
  intros [Hnd Hedges]. split; [now apply NoDup_add_node|].
  intros src dest. rewrite edges_add_node. intros Hin.
  destruct (Hedges src dest Hin) as (Hle & Hs & Hd).
  repeat split; [exact Hle | now apply contains_add_node..].
Qed.

Lemma store_ok_add_edge (a b : string) (d d' : MultiGraph.t) :
  store_ok d -> MultiGraph.add_edge a b d = Ok d' -> store_ok d'.
Proof.
  intros [Hnd Hedges] Hadd.
  destruct (add_edge_result a b d)
    as (src & dest & Hle & d'' & Hadd' & Hnodes & Hperm).
  rewrite Hadd in Hadd'. injection Hadd' as <-.
  assert (Hcont : forall m,
    MultiGraph.contains m d' = true <->
    m = dest \/ m = src \/ MultiGraph.contains m d = true).
  { intros m. rewrite !contains_In, Hnodes, !In_nodes_add_node. tauto. }
  split.
  - rewrite Hnodes. now apply NoDup_add_node, NoDup_add_node.
  - intros x y Hin. apply (Permutation_in _ Hperm) in Hin.
    destruct Hin as [[= <- <-] | Hin].
    + repeat split; [exact Hle | apply Hcont; auto..].
    + destruct (Hedges x y Hin) as (Hxy & Hx & Hy).
      repeat split; [exact Hxy | apply Hcont; auto..].
Qed.

(** X2: the store keeps its shape under [add_node] and [add_edge]: each
    node is listed once by [nodes], and each edge goes from the smaller to
    the larger name in Python's order on strings, between registered
    nodes. *)
Theorem store_ok_preserved :
  store_ok MultiGraph.init /\
  (forall n d, store_ok d -> store_ok (MultiGraph.add_node n d)) /\
  (forall a b d d',
      store_ok d -> MultiGraph.add_edge a b d = Ok d' -> store_ok d').
Proof.
  split; [exact store_ok_init|].
  split; [exact store_ok_add_node | exact store_ok_add_edge].
Qed.

Lemma store_ok_preserved_witness :
  store_ok [("h10", ["h2"]); ("h2", [])].
Proof.
  apply (proj2 (proj2 store_ok_preserved) "h2" "h10" MultiGraph.init).
  - exact store_ok_init.
  - reflexivity.
Defined.

(** X3: in a store whose nodes are listed once, [edges] yields the pair
    [(src, dest)] exactly when [dest] is in the adjacency list that the
    lookup of [src] returns. *)
Theorem edges_adjacency (src dest : string) (d : MultiGraph.t) :
  store_ok d ->
  In (src, dest) (MultiGraph.edges d) <->
  exists adj, MultiGraph.getitem src d = Some adj /\ In dest adj.
Proof. intros [Hnd _]. now apply In_edges_getitem. Qed.

Lemma edges_adjacency_witness :
  In ("h10", "h2") (MultiGraph.edges [("h10", ["h2"]); ("h2", [])]) <->
  exists adj,
    MultiGraph.getitem "h10" [("h10", ["h2"]); ("h2", [])] = Some adj /\
    In "h2" adj.
Proof.
  apply (edges_adjacency "h10" "h2" [("h10", ["h2"]); ("h2", [])]).
  apply (store_ok_add_edge "h2" "h10" MultiGraph.init);
    [exact store_ok_init | reflexivity].
Defined.

(** ** Adding nodes *)

Section NodeFacts.

Lemma addNode_flagged_accepted (name flag : string) (opts : opts_t)
  (s : Topo.t) :
  accepted flag opts ->
  addNode_flagged name flag opts s =
    addNode name (<[flag := VBool true]> opts) s.
Proof.
  intros (H1 & H2 & H3). unfold addNode_flagged. now rewrite H1, H2, H3.
Qed.

Lemma addNode_flagged_rejected (name flag : string) (opts : opts_t)
  (s : Topo.t) :
  ~ accepted flag opts ->
  addNode_flagged name flag opts s = (s, Raise TypeError).
Proof.
  intros Hn. unfold addNode_flagged.
  destruct (opts !! flag) eqn:H1; [reflexivity|].
  destruct (opts !! "name") eqn:H2; [reflexivity|].
  destruct (opts !! "self") eqn:H3; [reflexivity|].
  exfalso. apply Hn. now repeat split.
Qed.

Lemma dict_is_empty_insert (k : string) (v : value) (d : opts_t) :
  dict_is_empty (<[k := v]> d) = false.
Proof.
  unfold dict_is_empty. apply bool_decide_eq_false. apply insert_non_empty.
Qed.

Lemma info_flag_inserted (flag : string) (d : opts_t) :
  info_flag flag (Some (<[flag := VBool true]> d)) = true.
Proof.
  unfold info_flag. now rewrite dict_is_empty_insert, lookup_insert_eq.
Qed.

Lemma addNode_flagged_classifies (flag : string) (s : Topo.t)
  (name : string) (eff : opts_t) :
  accepted flag eff ->
  let r := addNode_flagged name flag eff s in
  outcome r = Ok name /\
  node_info (state_of r) !! name = Some (Some (<[flag := VBool true]> eff)) /\
  g (state_of r) = MultiGraph.add_node name (g s) /\
  ports (state_of r) = ports s /\
  role_flag flag name (state_of r) = (state_of r, Ok true).
Proof.
  intros Hacc r. subst r. rewrite (addNode_flagged_accepted _ _ _ _ Hacc).
  unfold addNode. munfold. proj_simpl.
  split; [reflexivity|]. split; [apply lookup_insert_eq|].
  split; [reflexivity|]. split; [reflexivity|].
  unfold role_flag. munfold. proj_simpl.
  now rewrite lookup_insert_eq, info_flag_inserted.
Qed.

End NodeFacts.

(** X4: [addNode] replaces the metadata of a node that exists already and
    does not register it a second time.  For options that a call can bind
    (without the keys ["name"] and ["self"]), adding a node twice leaves
    the same object as adding it once with the later options, and the role
    flags of the earlier options are gone. *)
Theorem addNode_overwrites (s : Topo.t) (name : string) (o1 o2 : opts_t) :
  o1 !! "name" = None -> o1 !! "self" = None ->
  o2 !! "name" = None -> o2 !! "self" = None ->
  let s2 := state_of (addNode name o2 s) in
  state_of (addNode name o2 (state_of (addNode name o1 s))) = s2 /\
  outcome (addNode name o2 s) = Ok name /\
  nodeInfo name s2 = (s2, Ok o2) /\
  forall flag, role_flag flag name s2 = (s2, Ok (info_flag flag (Some o2))).
Proof.
  intros _ _ _ _ s2. subst s2. unfold addNode, nodeInfo, role_flag. munfold.
  proj_simpl. rewrite !lookup_insert_eq.
  split; [|repeat split].
  unfold set_node_info, set_g. proj_simpl.
  rewrite insert_insert_eq.
  unfold MultiGraph.add_node at 1. now rewrite contains_add_node_same.
Qed.

Lemma addNode_overwrites_witness :
  let o1 : opts_t := {["isSwitch" := VBool true]} in
  let o2 : opts_t := {["cpu" := VInt 2]} in
  let s := init ∅ ∅ ∅ ∅ ∅ ∅ ∅ in
  let s2 := state_of (addNode "x" o2 s) in
  state_of (addNode "x" o2 (state_of (addNode "x" o1 s))) = s2 /\
  outcome (addNode "x" o2 s) = Ok "x" /\
  nodeInfo "x" s2 = (s2, Ok o2) /\
  isSwitch "x" s2 = (s2, Ok false).
Proof.
  intros o1 o2 s s2.
  destruct (addNode_overwrites s "x" o1 o2) as (H1 & H2 & H3 & H4);
    [vm_compute; reflexivity..|].
  split; [exact H1|]. split; [exact H2|]. split; [exact H3|].
  exact (H4 "isSwitch").
Defined.

(** X5: each role adder, given options (or defaults, when no option is
    given) without its flag and without the keys ["name"] and ["self"],
    returns the name, stores these options together with its flag set to
    true, registers the node in the graph, leaves the port table alone, and
    makes its own role predicate true. *)
Theorem role_adders_classify :
  classifies addHost "isHost" hopts /\
  classifies addSwitch "isSwitch" sopts /\
  classifies addLegacySwitch "isLegacySwitch" lsopts /\
  classifies addHostInterface "isHostInterface" hiopts /\
  classifies addLegacyRouter "isLegacyRouter" lropts /\
  classifies addTransitPortalRouter "isTransitPortalRouter" tpropts.
Proof.
  split; [|split; [|split; [|split; [|split]]]]; intros s name opts Hacc;
    apply (addNode_flagged_classifies _ s name _ Hacc).
Qed.

Lemma role_adders_classify_witness :
  let s := init ∅ {["dpid" := VStr "1"]} ∅ ∅ ∅ ∅ ∅ in
  let r := addSwitch "s1" ∅ s in
  outcome r = Ok "s1" /\
  node_info (state_of r) !! "s1" =
    Some (Some (<["isSwitch" := VBool true]> {["dpid" := VStr "1"]})) /\
  isSwitch "s1" (state_of r) = (state_of r, Ok true).
Proof.
  intros s r.
  destruct (proj1 (proj2 role_adders_classify) s "s1" ∅)
    as (H1 & H2 & _ & _ & H5).
  - vm_compute. repeat split.
  - split; [exact H1|]. split; [exact H2 | exact H5].
Defined.

(** X6: each role adder raises [TypeError] and leaves the object as it was
    when the options it would pass on (the caller's, or the defaults when
    the caller gives none) already hold its flag or one of the keys
    ["name"] and ["self"]: the keyword would be given twice to [addNode]. *)
Theorem role_adders_reject :
  rejects addHost "isHost" hopts /\
  rejects addSwitch "isSwitch" sopts /\
  rejects addLegacySwitch "isLegacySwitch" lsopts /\
  rejects addHostInterface "isHostInterface" hiopts /\
  rejects addLegacyRouter "isLegacyRouter" lropts /\
  rejects addTransitPortalRouter "isTransitPortalRouter" tpropts.
Proof.
  split; [|split; [|split; [|split; [|split]]]]; intros s name opts Hrej;
    apply (addNode_flagged_rejected name _ _ s Hrej).
Qed.

Lemma role_adders_reject_witness :
  let s := init {["isHost" := VBool true]} ∅ ∅ ∅ ∅ ∅ ∅ in
  addHost "h1" ∅ s = (s, Raise TypeError).
Proof.
  intros s. apply (proj1 role_adders_reject s "h1" ∅).
  intros (H & _). vm_compute in H. discriminate H.
Defined.

(** ** The graph along a history of calls *)

Section GraphFacts.

Lemma addNode_flagged_cases (name flag : string) (opts : opts_t) (s : Topo.t) :
  addNode_flagged name flag opts s =
    addNode name (<[flag := VBool true]> opts) s \/
  addNode_flagged name flag opts s = (s, Raise TypeError).
Proof.
  unfold addNode_flagged.
  destruct (opts !! flag), (opts !! "name"), (opts !! "self"); auto.
Qed.

Lemma graph_inv_same (s s' : Topo.t) (log : list link_record) :
  g s' = g s ->
  (forall n, is_Some (node_info s !! n) -> is_Some (node_info s' !! n)) ->
  (forall a b, port_cell (ports s') a b = port_cell (ports s) a b) ->
  graph_inv (s, log) -> graph_inv (s', log).
Proof.
  intros Hg Hinfo Hcells (Hstore & Hnodes & Hlen & Hedges).
  unfold graph_inv. cbn [fst snd] in *. rewrite Hg.
  split; [exact Hstore|]. split; [auto|]. split; [exact Hlen|].
  intros a b Hin. rewrite !Hcells. now apply Hedges.
Qed.

Lemma graph_inv_addNode (s : Topo.t) (log : list link_record)
  (name : string) (opts : opts_t) :
  graph_inv (s, log) -> graph_inv (state_of (addNode name opts s), log).
Proof.
  intros (Hstore & Hnodes & Hlen & Hedges).
  unfold graph_inv, addNode. munfold. proj_simpl.
  split; [now apply store_ok_add_node|]. split; [|split].
  - intros n Hin. apply In_nodes_add_node in Hin.
    destruct (decide (name = n)) as [->|Hne].
    + rewrite lookup_insert_eq. eauto.
    + rewrite lookup_insert_ne by exact Hne.
      destruct Hin as [->|Hin]; [congruence | now apply Hnodes].
  - now rewrite edges_add_node.
  - intros a b. rewrite edges_add_node. apply Hedges.
Qed.

Lemma graph_inv_flagged (s : Topo.t) (log : list link_record)
  (name flag : string) (opts : opts_t) :
  graph_inv (s, log) ->
  graph_inv (state_of ((addNode_flagged name flag opts;; mret tt) s), log).
Proof.
  intros Hinv. rewrite bind_ret_state.
  destruct (addNode_flagged_cases name flag opts s) as [-> | ->].
  - now apply graph_inv_addNode.
  - exact Hinv.
Qed.

Lemma sorted_pair_cases (a b : string) :
  sorted_pair a b = (a, b) \/ sorted_pair a b = (b, a).
Proof. rewrite Topo_sorted_pair_eq. destruct (Natural.lt b a); auto. Qed.

Lemma store_pair_cases (a b : string) :
  MultiGraph.sorted_pair a b = (a, b) \/ MultiGraph.sorted_pair a b = (b, a).
Proof. rewrite MultiGraph_sorted_pair_eq. destruct (String.ltb b a); auto. Qed.

Lemma add_edge_full (x y : string) (d : MultiGraph.t) :
  let p := MultiGraph.sorted_pair x y in
  exists d',
    MultiGraph.add_edge x y d = Ok d' /\
    MultiGraph.nodes d' =
      MultiGraph.nodes
        (MultiGraph.add_node (snd p) (MultiGraph.add_node (fst p) d)) /\
    Permutation (MultiGraph.edges d') (p :: MultiGraph.edges d).
Proof.
  intros p. subst p. unfold MultiGraph.add_edge.
  destruct (MultiGraph.sorted_pair x y) as [src dest]. cbn [fst snd].
  destruct (add_edge_ordered src dest d) as (d' & -> & Hn & _ & _ & Hp).
  exists d'. now repeat split.
Qed.

(** The edge that [addLink node1 node2] stores joins its two end points. *)
Lemma link_pair_ends (node1 node2 : string) :
  let key := sorted_pair node1 node2 in
  let p := MultiGraph.sorted_pair (fst key) (snd key) in
  (fst p = node1 /\ snd p = node2) \/ (fst p = node2 /\ snd p = node1).
Proof.
  intros key p. subst p key.
  destruct (sorted_pair_cases node1 node2) as [-> | ->]; cbn [fst snd];
    match goal with
    | |- context [MultiGraph.sorted_pair ?a ?b] =>
        destruct (store_pair_cases a b) as [-> | ->]
    end; cbn [fst snd]; auto.
Qed.

Lemma graph_inv_addLink (s : Topo.t) (log : list link_record)
  (node1 node2 : string) (port1 port2 : option Z) (opts : opts_t)
  (i1 i2 : option opts_t) :
  node_info s !! node1 = Some i1 ->
  node_info s !! node2 = Some i2 ->
  graph_inv (s, log) ->
  graph_inv (state_of (addLink node1 node2 port1 port2 opts s),
             ((node1, node2), link_ports s node1 node2 port1 port2) :: log).
Proof.
  intros H1 H2 (Hstore & Hnodes & Hlen & Hedges). cbn [fst snd] in *.
  destruct (addLink_ok s node1 node2 port1 port2 opts i1 i2 H1 H2)
    as (P' & d' & Hrun & Hedge & Hcells).
  rewrite Hrun.
  set (key := sorted_pair node1 node2) in *.
  destruct (add_edge_full (fst key) (snd key) (g s))
    as (d'' & Hadd & Hn & Hperm).
  rewrite Hedge in Hadd. injection Hadd as <-.
  pose proof (link_pair_ends node1 node2) as Hends.
  cbv zeta in Hends. fold key in Hends.
  set (p := MultiGraph.sorted_pair (fst key) (snd key)) in *.
  assert (Hcell_new :
    is_Some (port_cell P' node1 node2) /\ is_Some (port_cell P' node2 node1)).
  { rewrite !Hcells. split; repeat case_decide; eauto; name_contra. }
  unfold graph_inv. proj_simpl.
  split; [exact (store_ok_add_edge _ _ _ _ Hstore Hedge)|].
  split; [|split].
  - intros n Hin. rewrite Hn in Hin.
    apply In_nodes_add_node in Hin as [-> | Hin];
      [|apply In_nodes_add_node in Hin as [-> | Hin]; [|now apply Hnodes]];
      destruct Hends as [[E1 E2] | [E1 E2]]; rewrite ?E1, ?E2; eauto.
  - rewrite (Permutation_length Hperm). simpl. now rewrite Hlen.
  - intros a b Hin. apply (Permutation_in _ Hperm) in Hin.
    destruct Hin as [Hp | Hin].
    + assert (Ea : fst p = a) by now rewrite Hp.
      assert (Eb : snd p = b) by now rewrite Hp.
      rewrite Ea, Eb in Hends.
      destruct Hends as [[-> ->] | [-> ->]]; tauto.
    + destruct (Hedges a b Hin) as [Hab Hba].
      rewrite !Hcells. split; repeat case_decide; eauto.
Qed.

(** Every call keeps the invariant of the graph. *)
Lemma step_graph_inv (st : Topo.t * list link_record) (o : op) :
  graph_inv st -> graph_inv (step st o).
Proof.
  destruct st as [s log]. intros Hinv.
  destruct o; unfold step, call; cbn [fst snd];
    try (apply graph_inv_flagged; exact Hinv).
  - rewrite bind_ret_state. now apply graph_inv_addNode.
  - destruct (node_info s !! node1) as [i1|] eqn:H1;
      [destruct (node_info s !! node2) as [i2|] eqn:H2|].
    + pose proof (graph_inv_addLink s log node1 node2 port1 port2 opts
                    i1 i2 H1 H2 Hinv) as Hnew.
      destruct (addLink_ok s node1 node2 port1 port2 opts i1 i2 H1 H2)
        as (P' & d' & Hrun & _).
      rewrite Hrun in Hnew. rewrite (bind_Ok _ _ _ _ _ Hrun). exact Hnew.
    + rewrite (bind_Raise _ _ _ _ _
        (addLink_unknown s node1 node2 port1 port2 opts (or_intror H2))).
      apply (graph_inv_same s); [reflexivity | auto | | exact Hinv].
      intros a b. proj_simpl. now rewrite !port_cell_ensure.
    + rewrite (bind_Raise _ _ _ _ _
        (addLink_unknown s node1 node2 port1 port2 opts (or_introl H1))).
      apply (graph_inv_same s); [reflexivity | auto | | exact Hinv].
      intros a b. proj_simpl. now rewrite !port_cell_ensure.
  - apply (graph_inv_same s); [reflexivity | auto | reflexivity | exact Hinv].
  - apply (graph_inv_same s); [reflexivity | | reflexivity | exact Hinv].
    intros n Hn. unfold setNodeInfo. munfold. proj_simpl.
    destruct (decide (name = n)) as [->|Hne].
    + rewrite lookup_insert_eq. eauto.
    + now rewrite lookup_insert_ne.
Qed.

Lemma fold_step_graph_inv (ops : list op) (st : Topo.t * list link_record) :
  graph_inv st -> graph_inv (fold_left step ops st).
Proof.
  revert st. induction ops as [|o ops IH]; intros st Hst; [exact Hst|].
  simpl. apply IH, step_graph_inv, Hst.
Qed.

Lemma init_graph_inv (ho so lo lro lso tpo hio : opts_t) :
  graph_inv (init ho so lo lro lso tpo hio, []).
Proof.
  unfold graph_inv. cbn [fst snd g init].
  split; [exact store_ok_init|]. repeat split; intros; contradiction.
Qed.

Lemma run_graph_inv (ho so lo lro lso tpo hio : opts_t) (ops : list op) :
  graph_inv (run ops (init ho so lo lro lso tpo hio)).
Proof. apply fold_step_graph_inv, init_graph_inv. Qed.

End GraphFacts.

(** ** Enumerations *)

Section EnumerationFacts.

Lemma filterM_run (flag : string) (s : Topo.t) (l : list string) :
  (forall n, In n l -> is_Some (node_info s !! n)) ->
  filterM (role_flag flag) l s = (s, Ok (List.filter (has_flag s flag) l)).
Proof.
  induction l as [|n l IH]; intros Hall; [reflexivity|].
  destruct (Hall n (or_introl eq_refl)) as [info Hinfo].
  cbn [filterM List.filter].
  rewrite (bind_Ok _ _ _ _ _ (role_flag_run flag n s info Hinfo)).
  rewrite (bind_Ok _ _ _ _ _ (IH (fun m Hm => Hall m (or_intror Hm)))).
  assert (Hf : has_flag s flag n = info_flag flag info).
  { unfold has_flag. now rewrite Hinfo. }
  rewrite Hf. reflexivity.
Qed.

Lemma enumeration_run (flag : string) (sort : bool) (s : Topo.t) :
  (forall n, In n (MultiGraph.nodes (g s)) -> is_Some (node_info s !! n)) ->
  (nodes sort ≫= filterM (role_flag flag)) s =
    (s, Ok (List.filter (has_flag s flag)
              (if sort then sorted (MultiGraph.nodes (g s))
               else MultiGraph.nodes (g s)))).
Proof.
  intros Hall.
  assert (Hn : nodes sort s =
    (s, Ok (if sort then sorted (MultiGraph.nodes (g s))
            else MultiGraph.nodes (g s)))).
  { unfold nodes. munfold. now destruct sort. }
  rewrite (bind_Ok _ _ _ _ _ Hn). apply filterM_run.
  intros n Hin. apply Hall. destruct sort; [|exact Hin].
  exact (Permutation_in _ (py_sorted_perm _ _) Hin).
Qed.

End EnumerationFacts.

(** X7: in every state reached from a new [Topo] by calls of the interface,
    each node of the graph has metadata, so [nodes] and the six enumerations
    by role do not raise: they return the nodes of the graph, each once,
    in the order of the store or rearranged by [sorted], filtered by the
    role predicate. *)
Theorem enumerations_total (ho so lo lro lso tpo hio : opts_t)
  (ops : list op) (sort : bool) :
  let s := fst (run ops (init ho so lo lro lso tpo hio)) in
  let all := MultiGraph.nodes (g s) in
  let listed := if sort then sorted all else all in
  NoDup listed /\
  Permutation listed all /\
  (forall n, In n listed -> is_Some (node_info s !! n)) /\
  nodes sort s = (s, Ok listed) /\
  hosts sort s = (s, Ok (List.filter (has_flag s "isHost") listed)) /\
  switches sort s = (s, Ok (List.filter (has_flag s "isSwitch") listed)) /\
  legacySwitches sort s =
    (s, Ok (List.filter (has_flag s "isLegacySwitch") listed)) /\
  legacyRouters sort s =
    (s, Ok (List.filter (has_flag s "isLegacyRouter") listed)) /\
  transitPortalRouters sort s =
    (s, Ok (List.filter (has_flag s "isTransitPortalRouter") listed)) /\
  hostInterfaces sort s =
    (s, Ok (List.filter (has_flag s "isHostInterface") listed)).
Proof.
  intros s all listed.
  destruct (run_graph_inv ho so lo lro lso tpo hio ops)
    as ((Hnd & _) & Hnodes & _).
  fold s in Hnd, Hnodes. fold all in Hnd, Hnodes.
  assert (Hperm : Permutation listed all).
  { subst listed. destruct sort; [apply py_sorted_perm | reflexivity]. }
  split; [now rewrite Hperm|]. split; [exact Hperm|].
  split; [intros n Hin; apply Hnodes, (Permutation_in _ Hperm Hin)|].
  split; [unfold nodes; munfold; subst listed all; now destruct sort|].
  repeat split; apply (enumeration_run _ sort s Hnodes).
Qed.

Lemma enumerations_total_witness :
  In "h2" (MultiGraph.nodes (g star)) /\ is_Some (node_info star !! "h2").
Proof.
  assert (Hin : In "h2" (MultiGraph.nodes (g star))).
  { vm_compute. auto. }
  split; [exact Hin|].
  exact (proj1 (proj2 (proj2
    (enumerations_total ∅ ∅ ∅ ∅ ∅ ∅ ∅ star_calls false))) "h2" Hin).
Defined.

(** ** Links and ports *)

(** X8: in every state reached from a new [Topo] by calls of the interface,
    [links] returns one pair for each [addLink] that succeeded, and for each
    pair it returns, [port] returns a pair of ports in either order of the
    two names. *)
Theorem links_have_ports (ho so lo lro lso tpo hio : opts_t)
  (ops : list op) (sort : bool) :
  let st := run ops (init ho so lo lro lso tpo hio) in
  exists l,
    links sort (fst st) = (fst st, Ok l) /\
    length l = length (snd st) /\
    forall a b,
      In (a, b) l ->
      exists pa pb,
        port a b (fst st) = (fst st, Ok (Some (pa, pb))) /\
        port b a (fst st) = (fst st, Ok (Some (pb, pa))).
Proof.
  intros st.
  destruct (run_graph_inv ho so lo lro lso tpo hio ops)
    as (_ & _ & Hlen & Hedges).
  fold st in Hlen, Hedges.
  assert (Hports : forall a b,
    In (a, b) (MultiGraph.edges (g (fst st))) \/
    In (b, a) (MultiGraph.edges (g (fst st))) ->
    exists pa pb,
      port a b (fst st) = (fst st, Ok (Some (pa, pb))) /\
      port b a (fst st) = (fst st, Ok (Some (pb, pa)))).
  { intros a b [Hin | Hin]; destruct (Hedges _ _ Hin) as [[x Hx] [y Hy]].
    - exists x, y. split; now apply port_found.
    - exists y, x. split; now apply port_found. }
  unfold links. munfold. destruct sort; cbn [negb]; eexists;
    (split; [reflexivity|]).
  - split.
    + rewrite (Permutation_length (py_sorted_perm _ _)), length_map.
      exact Hlen.
    + intros a b Hin. apply (Permutation_in _ (py_sorted_perm _ _)) in Hin.
      apply in_map_iff in Hin as ([x y] & Hxy & Hin). cbn [fst snd] in Hxy.
      apply Hports.
      destruct (sorted_pair_cases x y) as [E | E]; rewrite E in Hxy;
        injection Hxy as <- <-; auto.
  - split; [exact Hlen|]. intros a b Hin. apply Hports. now left.
Qed.

(** X9: whenever [port a b] returns a pair, [port b a] returns the same
    two ports in the other order; [port] does not change the object. *)
Theorem port_swap (s : Topo.t) (a b : string) (pa pb : Z) :
  outcome (port a b s) = Ok (Some (pa, pb)) ->
  port a b s = (s, Ok (Some (pa, pb))) /\
  port b a s = (s, Ok (Some (pb, pa))).
Proof.
  unfold port. munfold.
  destruct (port_cell (ports s) a b) as [x|] eqn:Hab; [|discriminate].
  destruct (port_cell (ports s) b a) as [y|] eqn:Hba; [|discriminate].
  intros [= <- <-]. split; reflexivity.
Qed.

Lemma port_swap_witness :
  port "h2" "s1" star = (star, Ok (Some (0, 2))) /\
  port "s1" "h2" star = (star, Ok (Some (2, 0))).
Proof.
  apply (port_swap star "h2" "s1" 0 2). vm_compute. reflexivity.
Defined.

(** X10: the ports of a pair of nodes change only by [addLink] on that
    pair: after any calls that are not [addLink] between [a] and [b],
    whether they succeed or raise, [port a b] returns what it returned
    before. *)
Theorem port_frame (s : Topo.t) (a b : string) (later : list op) :
  forallb (not_link_between a b) later = true ->
  outcome (port a b (fst (run later s))) = outcome (port a b s).
Proof.
  intros Hlater.
  destruct (fold_step_cells a b later (s, []) Hlater) as [Hab Hba].
  fold (run later s) in Hab, Hba. cbn [fst] in Hab, Hba.
  set (s' := fst (run later s)) in *.
  unfold port. munfold. rewrite Hab, Hba.
  destruct (port_cell (ports s) a b); [|reflexivity].
  destruct (port_cell (ports s) b a); reflexivity.
Qed.

Lemma port_frame_witness :
  let later := [AddHost "h4" ∅; AddLink "h4" "s1" (Some 7) (Some 9) ∅;
                AddLink "h1" "x" None None ∅; SetNodeInfo "s1" None] in
  outcome (port "h1" "s1" (fst (run later star))) = Ok (Some (0, 1)).
Proof.
  intros later.
  rewrite (port_frame star "h1" "s1" later); vm_compute; reflexivity.
Defined.

(** ** The tables of the port table *)

Section TableFacts.

Lemma port_cell_table (s : Topo.t) (a b : string) :
  port_cell (ports s) a b = port_table s a !! b.
Proof.
  unfold port_cell, port_table. destruct (ports s !! a); [reflexivity|].
  symmetry. apply lookup_empty.
Qed.

Lemma neighbors_recorded_table (s : Topo.t) (n : string) :
  neighbors_recorded s n = size (port_table s n).
Proof. reflexivity. Qed.

(** [addPort] on two nodes that have metadata, table by table. *)
Lemma addPort_tables (s : Topo.t) (src dst : string) (sport dport : option Z)
  (i1 i2 : option opts_t) :
  node_info s !! src = Some i1 ->
  node_info s !! dst = Some i2 ->
  let sp := fst (link_ports s src dst sport dport) in
  let dp := snd (link_ports s src dst sport dport) in
  exists P',
    addPort src dst sport dport s = (set_ports (fun _ => P') s, Ok tt) /\
    (forall x,
        default ∅ (P' !! x) =
          if decide (x = dst)
          then <[src := dp]>
                 (if decide (src = dst)
                  then <[dst := sp]> (port_table s src)
                  else port_table s dst)
          else if decide (x = src) then <[dst := sp]> (port_table s src)
          else port_table s x) /\
    (forall x,
        is_Some (P' !! x) <-> x = src \/ x = dst \/ is_Some (ports s !! x)).
Proof.
  intros H1 H2 sp dp.
  set (s2 := set_ports (ports_ensure dst) (set_ports (ports_ensure src) s)).
  assert (Hsrc : ports s2 !! src = Some (port_table s src)).
  { subst s2. proj_simpl.
    rewrite lookup_ports_ensure, lookup_ensure_default by auto.
    reflexivity. }
  assert (Hdst : ports s2 !! dst = Some (port_table s dst)).
  { subst s2. proj_simpl. rewrite lookup_ensure_default; [|auto].
    rewrite lookup_ports_ensure. unfold port_table.
    destruct (ports s !! dst); [reflexivity|]. now case_decide. }
  assert (Hother : forall x, x <> src -> x <> dst ->
            ports s2 !! x = ports s !! x).
  { intros x Hx1 Hx2. subst s2. proj_simpl. rewrite !lookup_ports_ensure.
    destruct (ports s !! x); [reflexivity|].
    rewrite !decide_False by congruence. reflexivity. }
  unfold addPort.
  rewrite (bind_Ok _ _ s (set_ports (ports_ensure src) s) tt) by reflexivity.
  rewrite (bind_Ok _ _ _ s2 tt) by reflexivity.
  rewrite (bind_Ok _ _ _ _ _ (role_flag_run "isSwitch" src s2 i1 H1)).
  rewrite (bind_Ok _ _ _ _ _ (role_flag_run "isSwitch" dst s2 i2 H2)).
  rewrite (bind_Ok _ _ _ _ _ (auto_port_run s s2 src sport i1 H1 Hsrc)).
  rewrite (bind_Ok _ _ _ _ _ (auto_port_run s s2 dst dport i2 H2 Hdst)).
  change (default (Z.of_nat (neighbors_recorded s src) + port_base s src) sport)
    with sp.
  change (default (Z.of_nat (neighbors_recorded s dst) + port_base s dst) dport)
    with dp.
  rewrite (bind_Ok _ _ _ _ _ (ports_setitem_run src dst sp s2 _ Hsrc)).
  set (T2 := if decide (src = dst) then <[dst := sp]> (port_table s src)
             else port_table s dst).
  assert (Hdst3 :
    <[src := <[dst := sp]> (port_table s src)]> (ports s2) !! dst = Some T2).
  { rewrite lookup_insert. subst T2. case_decide; [reflexivity | exact Hdst]. }
  rewrite (ports_setitem_run dst src dp _ T2) by exact Hdst3.
  eexists. split; [reflexivity|]. proj_simpl. split.
  - intros x. rewrite !lookup_insert.
    destruct (decide (x = dst)) as [->|Hxd].
    + rewrite decide_True by reflexivity. reflexivity.
    + rewrite decide_False by congruence.
      destruct (decide (x = src)) as [->|Hxs].
      * rewrite decide_True by reflexivity. reflexivity.
      * rewrite decide_False by congruence.
        rewrite Hother by assumption. reflexivity.
  - intros x. rewrite !lookup_insert.
    destruct (decide (dst = x)) as [->|Hxd]; [split; eauto|].
    destruct (decide (src = x)) as [->|Hxs]; [split; eauto|].
    rewrite Hother by congruence. split; [auto|].
    intros [->|[->|H]]; [congruence..|exact H].
Qed.

Lemma addLink_tables (s : Topo.t) (node1 node2 : string)
  (port1 port2 : option Z) (opts : opts_t) (i1 i2 : option opts_t) :
  node_info s !! node1 = Some i1 ->
  node_info s !! node2 = Some i2 ->
  let r := addLink node1 node2 port1 port2 opts s in
  let sp := fst (link_ports s node1 node2 port1 port2) in
  let dp := snd (link_ports s node1 node2 port1 port2) in
  outcome r = Ok (sorted_pair node1 node2) /\
  node_info (state_of r) = node_info s /\
  (forall x,
      port_table (state_of r) x =
        if decide (x = node2)
        then <[node1 := dp]>
               (if decide (node1 = node2)
                then <[node2 := sp]> (port_table s node1)
                else port_table s node2)
        else if decide (x = node1) then <[node2 := sp]> (port_table s node1)
        else port_table s x) /\
  (forall x,
      is_Some (ports (state_of r) !! x) <->
      x = node1 \/ x = node2 \/ is_Some (ports s !! x)).
Proof.
  intros H1 H2 r sp dp.
  destruct (addPort_tables s node1 node2 port1 port2 i1 i2 H1 H2)
    as (P' & Hrun & Htab & Hdom).
  destruct (add_edge_run (fst (sorted_pair node1 node2))
              (snd (sorted_pair node1 node2)) (g s)) as (d' & Hedge & _).
  assert (Hr : r =
    (set_g (fun _ => d')
       (set_link_info
          <[sorted_pair node1 node2 := or_default opts (lopts s)]>
          (set_ports (fun _ => P') s)), Ok (sorted_pair node1 node2))).
  { subst r. unfold addLink.
    rewrite (bind_Ok _ _ s s s) by reflexivity.
    rewrite (bind_Ok _ _ _ _ _ Hrun).
    set (s3 := set_link_info
                 <[sorted_pair node1 node2 := or_default opts (lopts s)]>
                 (set_ports (fun _ => P') s)).
    rewrite (bind_Ok _ _ _ s3 tt) by reflexivity.
    rewrite (bind_Ok _ _ _ _ _ (g_add_edge_run _ _ s3 d' Hedge)).
    reflexivity. }
  rewrite Hr. proj_simpl. unfold port_table at 1. proj_simpl.
  split; [reflexivity|]. split; [reflexivity|]. split; [exact Htab|exact Hdom].
Qed.

End TableFacts.

(** ** Empty port tables are not observable *)

Section ViewFacts.

Lemma port_table_ensure (s : Topo.t) (n x : string) :
  port_table (set_ports (ports_ensure n) s) x = port_table s x.
Proof.
  unfold port_table. proj_simpl. rewrite lookup_ports_ensure.
  destruct (ports s !! x); [reflexivity|]. now case_decide.
Qed.

Lemma same_view_refl (s : Topo.t) : same_view s s.
Proof. split; [now destruct s | reflexivity]. Qed.

Lemma same_view_link_ports (s s' : Topo.t) (a b : string) (p1 p2 : option Z) :
  same_view s s' -> link_ports s' a b p1 p2 = link_ports s a b p1 p2.
Proof.
  intros [Hs Ht]. unfold link_ports, port_base.
  rewrite !neighbors_recorded_table, !Ht. rewrite Hs. reflexivity.
Qed.

(** A call other than [addLink] neither reads nor writes the port table. *)
Lemma call_set_ports (o : op) (s : Topo.t) (P : gmap string (gmap string Z)) :
  (forall n1 n2 p1 p2 opts, o <> AddLink n1 n2 p1 p2 opts) ->
  call o (set_ports (fun _ => P) s) =
    (set_ports (fun _ => P) (state_of (call o s)), outcome (call o s)).
Proof.
  intros Hnot.
  destruct o; try reflexivity;
    try (unfold call, addHost, addSwitch, addLegacySwitch, addHostInterface,
           addLegacyRouter, addTransitPortalRouter, addNode_flagged;
         munfold; proj_simpl;
         repeat match goal with
                | |- context [match ?m !! ?k with _ => _ end] =>
                    destruct (m !! k)
                end; reflexivity).
  exfalso. eapply Hnot. reflexivity.
Qed.

Lemma call_same_view (o : op) (s s' : Topo.t) :
  same_view s s' ->
  outcome (call o s') = outcome (call o s) /\
  same_view (state_of (call o s)) (state_of (call o s')).
Proof.
  intros Hv. pose proof Hv as [Hs Ht].
  assert (Hother :
    (forall n1 n2 p1 p2 opts, o <> AddLink n1 n2 p1 p2 opts) ->
    outcome (call o s') = outcome (call o s) /\
    same_view (state_of (call o s)) (state_of (call o s'))).
  { intros Hnot. rewrite Hs, (call_set_ports o s _ Hnot). proj_simpl.
    split; [reflexivity|]. split; [reflexivity|].
    intros n. unfold port_table. proj_simpl.
    rewrite (call_ports o s Hnot). apply Ht. }
  destruct o; try (apply Hother; discriminate). clear Hother.
  unfold call. rewrite !bind_ret_state.
  assert (Hni : node_info s' = node_info s) by (rewrite Hs; reflexivity).
  destruct (node_info s !! node1) as [i1|] eqn:H1;
    [destruct (node_info s !! node2) as [i2|] eqn:H2|].
  - assert (H1' : node_info s' !! node1 = Some i1) by now rewrite Hni.
    assert (H2' : node_info s' !! node2 = Some i2) by now rewrite Hni.
    destruct (addLink_ok s node1 node2 port1 port2 opts i1 i2 H1 H2)
      as (P1 & d1 & Hrun1 & Hedge1 & _).
    destruct (addLink_ok s' node1 node2 port1 port2 opts i1 i2 H1' H2')
      as (P2 & d2 & Hrun2 & Hedge2 & _).
    destruct (addLink_tables s node1 node2 port1 port2 opts i1 i2 H1 H2)
      as (_ & _ & Htab1 & _).
    destruct (addLink_tables s' node1 node2 port1 port2 opts i1 i2 H1' H2')
      as (_ & _ & Htab2 & _).
    assert (Hd : d2 = d1).
    { rewrite Hs in Hedge2. proj_simpl. rewrite Hedge1 in Hedge2.
      now injection Hedge2. }
    subst d2.
    rewrite (bind_Ok _ _ _ _ _ Hrun1), (bind_Ok _ _ _ _ _ Hrun2).
    split; [reflexivity|]. split.
    + rewrite Hrun1, Hrun2. proj_simpl. rewrite Hs. reflexivity.
    + intros x. rewrite Htab2, Htab1, !Ht, (same_view_link_ports _ _ _ _ _ _ Hv).
      reflexivity.
  - assert (H2' : node_info s' !! node2 = None) by now rewrite Hni.
    rewrite (bind_Raise _ _ _ _ _
      (addLink_unknown s node1 node2 port1 port2 opts (or_intror H2))).
    rewrite (bind_Raise _ _ _ _ _
      (addLink_unknown s' node1 node2 port1 port2 opts (or_intror H2'))).
    rewrite !(addLink_unknown _ node1 node2 port1 port2 opts)
      by (right; assumption).
    split; [reflexivity|]. proj_simpl. split.
    + rewrite Hs at 1. reflexivity.
    + intros x.
      change (set_ports (fun p => ports_ensure node2 (ports_ensure node1 p)) s')
        with (set_ports (ports_ensure node2) (set_ports (ports_ensure node1) s')).
      change (set_ports (fun p => ports_ensure node2 (ports_ensure node1 p)) s)
        with (set_ports (ports_ensure node2) (set_ports (ports_ensure node1) s)).
      now rewrite !port_table_ensure.
  - assert (H1' : node_info s' !! node1 = None) by now rewrite Hni.
    rewrite (bind_Raise _ _ _ _ _
      (addLink_unknown s node1 node2 port1 port2 opts (or_introl H1))).
    rewrite (bind_Raise _ _ _ _ _
      (addLink_unknown s' node1 node2 port1 port2 opts (or_introl H1'))).
    rewrite !(addLink_unknown _ node1 node2 port1 port2 opts)
      by (left; assumption).
    split; [reflexivity|]. proj_simpl. split.
    + rewrite Hs at 1. reflexivity.
    + intros x.
      change (set_ports (fun p => ports_ensure node2 (ports_ensure node1 p)) s')
        with (set_ports (ports_ensure node2) (set_ports (ports_ensure node1) s')).
      change (set_ports (fun p => ports_ensure node2 (ports_ensure node1 p)) s)
        with (set_ports (ports_ensure node2) (set_ports (ports_ensure node1) s)).
      now rewrite !port_table_ensure.
Qed.

Lemma step_same_view (o : op) (s s' : Topo.t) (log : list link_record) :
  same_view s s' ->
  snd (step (s', log) o) = snd (step (s, log) o) /\
  same_view (fst (step (s, log) o)) (fst (step (s', log) o)).
Proof.
  intros Hv. destruct (call_same_view o s s' Hv) as [Hout Hview].
  unfold step. cbn [fst snd]. rewrite Hout.
  destruct o; try (split; [reflexivity | exact Hview]).
  destruct (outcome (call (AddLink node1 node2 port1 port2 opts) s));
    cbn [fst snd]; (split; [|exact Hview]); [|reflexivity].
  now rewrite (same_view_link_ports _ _ _ _ _ _ Hv).
Qed.

Lemma fold_same_view (ops : list op) (s s' : Topo.t) (log : list link_record) :
  same_view s s' ->
  snd (fold_left step ops (s', log)) = snd (fold_left step ops (s, log)) /\
  same_view (fst (fold_left step ops (s, log)))
            (fst (fold_left step ops (s', log))).
Proof.
  revert s s' log. induction ops as [|o ops IH]; intros s s' log Hv.
  - split; [reflexivity | exact Hv].
  - simpl. destruct (step_same_view o s s' log Hv) as [Hlog Hview].
    destruct (step (s, log) o) as [t l] eqn:E.
    destruct (step (s', log) o) as [t' l'] eqn:E'.
    cbn [fst snd] in *. subst l'. now apply IH.
Qed.

Lemma port_outcome (s : Topo.t) (a b : string) :
  outcome (port a b s) =
    match port_cell (ports s) a b with
    | Some sp =>
        match port_cell (ports s) b a with
        | Some dp => Ok (Some (sp, dp))
        | None => Raise AssertionError
        end
    | None => Ok None
    end.
Proof.
  unfold port. munfold.
  destruct (port_cell (ports s) a b); [|reflexivity].
  destruct (port_cell (ports s) b a); reflexivity.
Qed.

End ViewFacts.

(** X11: the empty port tables that a failed [addLink] leaves behind are
    not observable.  After [addLink] raised for an end point without
    metadata, any further calls add the same links with the same ports and
    lead to the same graph, the same node and link metadata and the same
    answers of [port] as without the failed call. *)
Theorem failed_addLink_unobservable (s : Topo.t) (node1 node2 : string)
  (port1 port2 : option Z) (opts : opts_t) (later : list op) :
  node_info s !! node1 = None \/ node_info s !! node2 = None ->
  let s1 := state_of (addLink node1 node2 port1 port2 opts s) in
  let st := run later s in
  let st1 := run later s1 in
  snd st1 = snd st /\
  g (fst st1) = g (fst st) /\
  node_info (fst st1) = node_info (fst st) /\
  link_info (fst st1) = link_info (fst st) /\
  forall a b, outcome (port a b (fst st1)) = outcome (port a b (fst st)).
Proof.
  intros Hunk s1 st st1.
  assert (Hv : same_view s s1).
  { subst s1. rewrite (addLink_unknown s _ _ port1 port2 opts Hunk).
    proj_simpl. split; [reflexivity|]. intros n.
    change (set_ports (fun p => ports_ensure node2 (ports_ensure node1 p)) s)
      with (set_ports (ports_ensure node2) (set_ports (ports_ensure node1) s)).
    now rewrite !port_table_ensure. }
  destruct (fold_same_view later s s1 [] Hv) as [Hlog [Hs Ht]].
  fold (run later s) in Hlog, Hs, Ht. fold (run later s1) in Hlog, Hs, Ht.
  fold st in Hlog, Hs, Ht. fold st1 in Hlog, Hs, Ht.
  split; [exact Hlog|].
  split; [rewrite Hs; reflexivity|].
  split; [rewrite Hs; reflexivity|].
  split; [rewrite Hs; reflexivity|].
  intros a b. now rewrite !port_outcome, !port_cell_table, !Ht.
Qed.

Lemma failed_addLink_unobservable_witness :
  let s := state_of (addSwitch "s1" ∅ (init ∅ ∅ ∅ ∅ ∅ ∅ ∅)) in
  let s1 := state_of (addLink "h1" "s1" None None ∅ s) in
  let later := [AddHost "h1" ∅; AddLink "h1" "s1" None None ∅] in
  outcome (port "h1" "s1" (fst (run later s1))) = Ok (Some (0, 1)).
Proof.
  intros s s1 later.
  destruct (failed_addLink_unobservable s "h1" "s1" None None ∅ later)
    as (_ & _ & _ & _ & H).
  - left. vm_compute. reflexivity.
  - rewrite H. vm_compute. reflexivity.
Defined.

(** ** The default options *)

Lemma addLink_state (s : Topo.t) (node1 node2 : string)
  (port1 port2 : option Z) (opts : opts_t) :
  exists P L d,
    state_of (addLink node1 node2 port1 port2 opts s) =
      set_g (fun _ => d) (set_link_info (fun _ => L)
                            (set_ports (fun _ => P) s)).
Proof.
  destruct (node_info s !! node1) as [i1|] eqn:H1;
    [destruct (node_info s !! node2) as [i2|] eqn:H2|].
  - destruct (addLink_ok s node1 node2 port1 port2 opts i1 i2 H1 H2)
      as (P' & d' & Hrun & _).
    rewrite Hrun. eexists _, _, _. reflexivity.
  - rewrite (addLink_unknown s node1 node2 port1 port2 opts (or_intror H2)).
    exists (ports_ensure node2 (ports_ensure node1 (ports s))),
      (link_info s), (g s). reflexivity.
  - rewrite (addLink_unknown s node1 node2 port1 port2 opts (or_introl H1)).
    exists (ports_ensure node2 (ports_ensure node1 (ports s))),
      (link_info s), (g s). reflexivity.
Qed.

Lemma addNode_flagged_state (name flag : string) (opts : opts_t)
  (s : Topo.t) :
  exists G N,
    state_of (addNode_flagged name flag opts s) =
      set_g (fun _ => G) (set_node_info (fun _ => N) s).
Proof.
  destruct (addNode_flagged_cases name flag opts s) as [-> | ->].
  - eexists _, _. reflexivity.
  - exists (g s), (node_info s). now destruct s.
Qed.

(** A call changes at most the graph, the metadata and the port table. *)
Lemma call_state (o : op) (s : Topo.t) :
  exists G N L P,
    state_of (call o s) =
      set_g (fun _ => G)
        (set_node_info (fun _ => N)
           (set_link_info (fun _ => L) (set_ports (fun _ => P) s))).
Proof.
  assert (Hadder : forall name flag opts,
    exists G N L P,
      state_of ((addNode_flagged name flag opts;; mret tt) s) =
        set_g (fun _ => G)
          (set_node_info (fun _ => N)
             (set_link_info (fun _ => L) (set_ports (fun _ => P) s)))).
  { intros name flag opts. rewrite bind_ret_state.
    destruct (addNode_flagged_state name flag opts s) as (G & N & ->).
    exists G, N, (link_info s), (ports s). reflexivity. }
  destruct o; try (apply Hadder).
  - eexists _, _, (link_info s), (ports s). reflexivity.
  - unfold call. rewrite bind_ret_state.
    destruct (addLink_state s node1 node2 port1 port2 opts)
      as (P & L & d & ->).
    exists d, (node_info s), L, P. reflexivity.
  - eexists (g s), (node_info s), _, (ports s). reflexivity.
  - eexists (g s), _, (link_info s), (ports s). reflexivity.
Qed.

(** X12: the default options given to the constructor are never changed:
    every call of the interface, whether it succeeds or raises, leaves the
    seven sets of defaults as they were. *)
Theorem defaults_kept (ops : list op) (s : Topo.t) :
  let s' := fst (run ops s) in
  hopts s' = hopts s /\ sopts s' = sopts s /\ lopts s' = lopts s /\
  lropts s' = lropts s /\ lsopts s' = lsopts s /\ tpropts s' = tpropts s /\
  hiopts s' = hiopts s.
Proof.
  unfold run. generalize (@nil link_record) as log. revert s.
  induction ops as [|o ops IH]; intros s log; [repeat split|].
  cbn [fold_left].
  assert (Hstep : exists log',
    step (s, log) o = (state_of (call o s), log')).
  { unfold step. cbn [fst snd]. destruct o; eauto.
    destruct (outcome (call (AddLink node1 node2 port1 port2 opts) s)); eauto. }
  destruct Hstep as [log' ->].
  destruct (call_state o s) as (G & N & L & P & Hs).
  specialize (IH (state_of (call o s)) log'). cbv zeta in IH.
  rewrite Hs in IH at 2 4 6 8 10 12 14. exact IH.
Qed.

(** ** Canned topologies *)

Section StarFacts.

Import Shapes.

Lemma host_name_inj (h h' : Z) : host_name h = host_name h' -> h = h'.
Proof.
  unfold host_name. cbn [String.append]. intros [= H].
  exact (pretty_Z_inj _ _ H).
Qed.

Lemma host_name_not_s1 (h : Z) : host_name h <> "s1".
Proof. unfold host_name. cbn [String.append]. discriminate. Qed.

Lemma or_default_lookup (d : opts_t) (k : string) :
  or_default ∅ d !! k = d !! k.
Proof.
  unfold or_default, dict_is_empty.
  rewrite (bool_decide_eq_true_2 (∅ =@{opts_t} ∅)) by reflexivity.
  destruct (bool_decide (d = ∅)) eqn:E; cbn [negb andb]; [|reflexivity].
  apply bool_decide_eq_true in E. now subst d.
Qed.

Lemma host_info_flag (ho : opts_t) :
  (if info_flag "isSwitch"
        (Some (<["isHost" := VBool true]> (or_default ∅ ho)))
   then 1 else 0) = host_base ho.
Proof.
  unfold info_flag, host_base.
  rewrite dict_is_empty_insert, lookup_insert_ne by discriminate.
  now rewrite or_default_lookup.
Qed.

Variables (f1 f2 : Z -> option Z) (ho : opts_t).
Hypothesis Hho : accepted "isHost" (or_default ∅ ho).

(** One turn of the loop of a star. *)
Lemma star_turn (a : nat) (s : Topo.t) :
  star_inv f1 f2 ho (host_base ho) a s ->
  let h := 1 + Z.of_nat a in
  exists s',
    (addHost (host_name h) ∅
       ≫= fun host =>
            addLink host "s1" (f1 h) (f2 h) ∅;; mret tt) s = (s', Ok tt) /\
    star_inv f1 f2 ho (host_base ho) (S a) s'.
Proof.
  intros (Hhopts & (isw & Hsw & Hflag) & Hsize & Hdone & Htodo) h.
  set (name := host_name h).
  set (info := <["isHost" := VBool true]> (or_default ∅ ho)).
  set (s1 := set_node_info <[name := Some info]>
               (set_g (MultiGraph.add_node name) s)).
  assert (Hadd : addHost name ∅ s = (s1, Ok name)).
  { unfold addHost. rewrite (bind_Ok _ _ s s s) by reflexivity.
    rewrite Hhopts, (addNode_flagged_accepted _ _ _ _ Hho). reflexivity. }
  assert (Hn1 : node_info s1 !! name = Some (Some info)).
  { subst s1. proj_simpl. apply lookup_insert_eq. }
  assert (Hn2 : node_info s1 !! "s1" = Some isw).
  { subst s1. proj_simpl. rewrite lookup_insert_ne; [exact Hsw|].
    apply host_name_not_s1. }
  assert (Htab1 : forall x, port_table s1 x = port_table s x) by reflexivity.
  destruct (Htodo h ltac:(subst h; lia)) as [Hfree Hempty].
  destruct (addLink_tables s1 name "s1" (f1 h) (f2 h) ∅ _ _ Hn1 Hn2)
    as (Hout & Hinfo & Htab & _).
  assert (Hsp : fst (link_ports s1 name "s1" (f1 h) (f2 h)) =
                default (host_base ho) (f1 h)).
  { unfold link_ports, port_base. cbn [fst].
    rewrite neighbors_recorded_table, Htab1. fold name in Hempty.
    rewrite Hempty, Hn1. unfold info. rewrite host_info_flag. reflexivity. }
  assert (Hdp : snd (link_ports s1 name "s1" (f1 h) (f2 h)) =
                default h (f2 h)).
  { unfold link_ports, port_base. cbn [snd].
    rewrite neighbors_recorded_table, Htab1, Hsize, Hn2, Hflag.
    subst h. f_equal. lia. }
  rewrite Hsp, Hdp in Htab.
  destruct (addLink name "s1" (f1 h) (f2 h) ∅ s1) as [s2 out] eqn:Hlink.
  cbn [state_of outcome fst snd] in Hout, Hinfo, Htab. subst out.
  exists s2. split.
  { rewrite (bind_Ok _ _ _ _ _ Hadd), (bind_Ok _ _ _ _ _ Hlink). reflexivity. }
  assert (Hts1 : port_table s2 "s1" =
                 <[name := default h (f2 h)]> (port_table s "s1")).
  { rewrite Htab, decide_True by reflexivity.
    rewrite decide_False by apply host_name_not_s1. now rewrite Htab1. }
  assert (Hth : forall h', port_table s2 (host_name h') =
            if decide (h' = h) then {[ "s1" := default (host_base ho) (f1 h) ]}
            else port_table s (host_name h')).
  { intros h'. rewrite Htab.
    rewrite decide_False by apply host_name_not_s1.
    destruct (decide (h' = h)) as [->|Hne].
    - fold name. rewrite decide_True by reflexivity.
      rewrite Htab1. fold name in Hempty. rewrite Hempty. reflexivity.
    - rewrite decide_False; [now rewrite Htab1|].
      intros E. apply Hne. now apply host_name_inj. }
  unfold star_inv.
  split.
  { destruct (addLink_state s1 name "s1" (f1 h) (f2 h) ∅) as (P & L & d & E).
    rewrite Hlink in E. cbn [state_of fst] in E. rewrite E. exact Hhopts. }
  split; [exists isw; rewrite Hinfo; auto|].
  split.
  { rewrite Hts1, map_size_insert_None by exact Hfree. now rewrite Hsize. }
  split.
  - intros h' Hh'. rewrite Hts1, Hth.
    destruct (decide (h' = h)) as [->|Hne].
    + split; [apply lookup_insert_eq | reflexivity].
    + rewrite lookup_insert_ne
        by (intros E; apply Hne; symmetry; now apply host_name_inj).
      apply Hdone. subst h. lia.
  - intros h' Hh'. rewrite Hts1, Hth.
    rewrite decide_False by (subst h; lia).
    rewrite lookup_insert_ne
      by (intros E; apply host_name_inj in E; subst h; lia).
    apply Htodo. lia.
Qed.

(** The loop of a star over the hosts [a + 1 .. a + n]. *)
Lemma star_loop (n a : nat) (s : Topo.t) :
  star_inv f1 f2 ho (host_base ho) a s ->
  exists s',
    for_each (map (fun i => 1 + Z.of_nat i) (seq a n))
      (fun h =>
         addHost (host_name h) ∅
           ≫= fun host => addLink host "s1" (f1 h) (f2 h) ∅;; mret tt) s =
      (s', Ok tt) /\
    star_inv f1 f2 ho (host_base ho) (a + n) s'.
Proof.
  revert a s. induction n as [|n IH]; intros a s Hinv.
  - exists s. split; [reflexivity|]. now rewrite Nat.add_0_r.
  - destruct (star_turn a s Hinv) as (s1 & Hturn & Hinv1).
    destruct (IH (S a) s1 Hinv1) as (s' & Hloop & Hinv').
    exists s'. split.
    + cbn [seq map for_each]. rewrite (bind_Ok _ _ _ _ _ Hturn). exact Hloop.
    + now rewrite Nat.add_succ_r.
Qed.

(** A star built on a new object. *)
Lemma star_built (so lo lro lso tpo hio : opts_t) (k : Z) :
  accepted "isSwitch" (or_default ∅ so) ->
  exists s',
    (addSwitch "s1" ∅
       ≫= fun switch =>
            for_each (irange 1 k)
              (fun h =>
                 addHost (host_name h) ∅
                   ≫= fun host =>
                        addLink host switch (f1 h) (f2 h) ∅;; mret tt))
      (init ho so lo lro lso tpo hio) = (s', Ok tt) /\
    star_inv f1 f2 ho (host_base ho) (Z.to_nat k) s'.
Proof.
  intros Hso.
  set (s0 := init ho so lo lro lso tpo hio).
  set (info := <["isSwitch" := VBool true]> (or_default ∅ so)).
  set (s1 := set_node_info <["s1" := Some info]>
               (set_g (MultiGraph.add_node "s1") s0)).
  assert (Hadd : addSwitch "s1" ∅ s0 = (s1, Ok "s1")).
  { unfold addSwitch. rewrite (bind_Ok _ _ s0 s0 s0) by reflexivity.
    change (sopts s0) with so.
    rewrite (addNode_flagged_accepted _ _ _ _ Hso). reflexivity. }
  assert (Hinv : star_inv f1 f2 ho (host_base ho) 0 s1).
  { unfold star_inv. split; [reflexivity|]. split.
    - exists (Some info). split; [apply lookup_insert_eq|].
      apply info_flag_inserted.
    - split; [reflexivity|]. split; [intros h Hh; lia|].
      intros h _. split; reflexivity. }
  destruct (star_loop (Z.to_nat (k + 1 - 1)) 0 s1 Hinv) as (s' & Hloop & Hinv').
  exists s'. split.
  - rewrite (bind_Ok _ _ _ _ _ Hadd). exact Hloop.
  - replace (Z.to_nat k) with (0 + Z.to_nat (k + 1 - 1))%nat; [exact Hinv'|].
    f_equal. lia.
Qed.

(** The ports of a finished star. *)
Lemma star_ports (a : nat) (s : Topo.t) (h : Z) :
  star_inv f1 f2 ho (host_base ho) a s ->
  1 <= h <= Z.of_nat a ->
  port (host_name h) "s1" s =
    (s, Ok (Some (default (host_base ho) (f1 h), default h (f2 h)))).
Proof.
  intros (_ & _ & _ & Hdone & _) Hh.
  destruct (Hdone h Hh) as [Hsw Hhost].
  apply port_found; rewrite port_cell_table.
  - rewrite Hhost. apply lookup_singleton_eq.
  - exact Hsw.
Qed.

End StarFacts.

(** X13: [SingleSwitchTopo(k)], for every [k], on a new object whose
    defaults for switches and hosts do not carry the flag of their role
    (nor the keys ["name"] and ["self"]) completes without an exception,
    and the host [h], for 1 <= h <= k, is on port [h] of the switch; its
    own port is 0 (1 when the host defaults classify hosts as switches as
    well). *)
Theorem SingleSwitchTopo_ports (ho so lo lro lso tpo hio : opts_t) (k h : Z) :
  accepted "isSwitch" (or_default ∅ so) ->
  accepted "isHost" (or_default ∅ ho) ->
  let r := Shapes.SingleSwitchTopo k (init ho so lo lro lso tpo hio) in
  outcome r = Ok tt /\
  (1 <= h <= k ->
   port (Shapes.host_name h) "s1" (state_of r) =
     (state_of r, Ok (Some (host_base ho, h)))).
Proof.
  intros Hso Hho r.
  destruct (star_built (fun _ => None) (fun _ => None) ho Hho
              so lo lro lso tpo hio k Hso) as (s' & Hrun & Hinv).
  change (Shapes.SingleSwitchTopo k (init ho so lo lro lso tpo hio) = (s', Ok tt))
    in Hrun.
  subst r. rewrite Hrun. split; [reflexivity|]. intros Hh.
  apply (star_ports (fun _ => None) (fun _ => None) ho (Z.to_nat k) s' h Hinv).
  lia.
Qed.

Lemma SingleSwitchTopo_ports_witness :
  let r := Shapes.SingleSwitchTopo 12 (init ∅ ∅ ∅ ∅ ∅ ∅ ∅) in
  outcome r = Ok tt /\
  port "h10" "s1" (state_of r) = (state_of r, Ok (Some (0, 10))).
Proof.
  intros r.
  assert (E1 : Shapes.host_name 10 = "h10") by (vm_compute; reflexivity).
  assert (E2 : host_base ∅ = 0) by (vm_compute; reflexivity).
  destruct (SingleSwitchTopo_ports ∅ ∅ ∅ ∅ ∅ ∅ ∅ 12 10) as [H1 H2].
  - vm_compute. repeat split.
  - vm_compute. repeat split.
  - rewrite E1, E2 in H2. split; [exact H1 | apply H2; lia].
Defined.

(** X14: [SingleSwitchReversedTopo(k)], for every [k], under the same
    condition on the defaults, completes without an exception, and the
    host [h], for 1 <= h <= k, has port 0 and is on port [k - h + 1] of the
    switch: the explicit ports are kept for every host. *)
Theorem SingleSwitchReversedTopo_ports (ho so lo lro lso tpo hio : opts_t)
  (k h : Z) :
  accepted "isSwitch" (or_default ∅ so) ->
  accepted "isHost" (or_default ∅ ho) ->
  let r := Shapes.SingleSwitchReversedTopo k (init ho so lo lro lso tpo hio) in
  outcome r = Ok tt /\
  (1 <= h <= k ->
   port (Shapes.host_name h) "s1" (state_of r) =
     (state_of r, Ok (Some (0, k - h + 1)))).
Proof.
  intros Hso Hho r.
  destruct (star_built (fun _ => Some 0) (fun h => Some (k - h + 1)) ho Hho
              so lo lro lso tpo hio k Hso) as (s' & Hrun & Hinv).
  change (Shapes.SingleSwitchReversedTopo k (init ho so lo lro lso tpo hio) =
          (s', Ok tt)) in Hrun.
  subst r. rewrite Hrun. split; [reflexivity|]. intros Hh.
  apply (star_ports (fun _ => Some 0) (fun h => Some (k - h + 1)) ho
           (Z.to_nat k) s' h Hinv).
  lia.
Qed.

Lemma SingleSwitchReversedTopo_ports_witness :
  let r := Shapes.SingleSwitchReversedTopo 3 (init ∅ ∅ ∅ ∅ ∅ ∅ ∅) in
  outcome r = Ok tt /\
  port "h1" "s1" (state_of r) = (state_of r, Ok (Some (0, 3))).
Proof.
  intros r.
  assert (E1 : Shapes.host_name 1 = "h1") by (vm_compute; reflexivity).
  destruct (SingleSwitchReversedTopo_ports ∅ ∅ ∅ ∅ ∅ ∅ ∅ 3 1) as [H1 H2].
  - vm_compute. repeat split.
  - vm_compute. repeat split.
  - rewrite E1 in H2. split; [exact H1 | apply H2; lia].
Defined.

Section ChainFacts.

Import Shapes.

Lemma switch_name_inj (i j : Z) : switch_name i = switch_name j -> i = j.
Proof.
  unfold switch_name. cbn [String.append]. intros [= H].
  exact (pretty_Z_inj _ _ H).
Qed.

Lemma switch_not_host (i j : Z) : switch_name i <> host_name j.
Proof. unfold switch_name, host_name. cbn [String.append]. discriminate. Qed.

Lemma switch_name_nonempty (i : Z) : String.eqb (switch_name i) "" = false.
Proof. reflexivity. Qed.

Lemma genHostName_one (i j : Z) : genHostName 1 i j = host_name i.
Proof. reflexivity. Qed.

Lemma irange_one : irange 1 1 = [1].
Proof. reflexivity. Qed.

Lemma lin_table_last_size (i : Z) :
  1 <= i ->
  Z.of_nat (size (lin_table i i)) + 1 = if i =? 1 then 2 else 3.
Proof.
  intros Hi. unfold lin_table. rewrite Z.ltb_irrefl.
  destruct (Z.leb_spec 2 i).
  - rewrite map_size_insert_None, map_size_singleton.
    + destruct (Z.eqb_spec i 1); lia.
    + apply lookup_singleton_ne. intros E. symmetry in E.
      exact (switch_not_host _ _ E).
  - rewrite map_size_singleton. destruct (Z.eqb_spec i 1); lia.
Qed.

Variables (ho so : opts_t).
Hypothesis Hho : accepted "isHost" (or_default ∅ ho).
Hypothesis Hso : accepted "isSwitch" (or_default ∅ so).

(** The switch [m] and its host, before the link to the previous switch. *)
Lemma chain_switch (i : nat) (s : Topo.t) :
  lin_inv ho so i s ->
  let m := 1 + Z.of_nat i in
  exists s1 s3,
    addSwitch (switch_name m) ∅ s = (s1, Ok (switch_name m)) /\
    for_each (irange 1 1)
      (fun j =>
         addHost (genHostName 1 m j) ∅
           ≫= fun host =>
                addLink host (switch_name m) None None ∅;; mret tt) s1 =
      (s3, Ok tt) /\
    hopts s3 = ho /\ sopts s3 = so /\
    (forall x, x <> switch_name m -> x <> host_name m ->
       node_info s3 !! x = node_info s !! x /\
       port_table s3 x = port_table s x) /\
    (exists isw,
        node_info s3 !! switch_name m = Some isw /\
        info_flag "isSwitch" isw = true) /\
    port_table s3 (host_name m) = {[ switch_name m := host_base ho ]} /\
    port_table s3 (switch_name m) = {[ host_name m := 1 ]}.
Proof.
  intros (Hhopts & Hsopts & Hdone & Htodo) m.
  set (sw := switch_name m). set (hn := host_name m).
  set (swinfo := <["isSwitch" := VBool true]> (or_default ∅ so)).
  set (hinfo := <["isHost" := VBool true]> (or_default ∅ ho)).
  set (s1 := set_node_info <[sw := Some swinfo]>
               (set_g (MultiGraph.add_node sw) s)).
  set (s2 := set_node_info <[hn := Some hinfo]>
               (set_g (MultiGraph.add_node hn) s1)).
  assert (Hadd1 : addSwitch sw ∅ s = (s1, Ok sw)).
  { unfold addSwitch. rewrite (bind_Ok _ _ s s s) by reflexivity.
    rewrite Hsopts, (addNode_flagged_accepted _ _ _ _ Hso). reflexivity. }
  assert (Hadd2 : addHost hn ∅ s1 = (s2, Ok hn)).
  { unfold addHost. rewrite (bind_Ok _ _ s1 s1 s1) by reflexivity.
    change (hopts s1) with (hopts s).
    rewrite Hhopts, (addNode_flagged_accepted _ _ _ _ Hho). reflexivity. }
  assert (Hne : sw <> hn) by apply switch_not_host.
  assert (Hn1 : node_info s2 !! hn = Some (Some hinfo)).
  { subst s2. proj_simpl. apply lookup_insert_eq. }
  assert (Hn2 : node_info s2 !! sw = Some (Some swinfo)).
  { subst s2 s1. proj_simpl. rewrite lookup_insert_ne by congruence.
    apply lookup_insert_eq. }
  destruct (Htodo m ltac:(subst m; lia)) as [Hh0 Hs0].
  fold hn in Hh0. fold sw in Hs0.
  assert (Htab2 : forall x, port_table s2 x = port_table s x) by reflexivity.
  destruct (addLink_tables s2 hn sw None None ∅ _ _ Hn1 Hn2)
    as (Hout & Hinfo & Htab & _).
  assert (Hsp : fst (link_ports s2 hn sw None None) = host_base ho).
  { unfold link_ports, port_base. cbn [fst default].
    rewrite neighbors_recorded_table, Htab2, Hh0, Hn1.
    unfold hinfo. rewrite host_info_flag. reflexivity. }
  assert (Hdp : snd (link_ports s2 hn sw None None) = 1).
  { unfold link_ports, port_base. cbn [snd default].
    rewrite neighbors_recorded_table, Htab2, Hs0, Hn2.
    unfold swinfo. rewrite info_flag_inserted. reflexivity. }
  rewrite Hsp, Hdp in Htab.
  destruct (addLink hn sw None None ∅ s2) as [s3 out] eqn:Hlink.
  destruct (addLink_state s2 hn sw None None ∅) as (P & L & d & E).
  rewrite Hlink in E.
  cbn [state_of outcome fst snd] in Hout, Hinfo, Htab, E. subst out.
  exists s1, s3. split; [exact Hadd1|]. split.
  { rewrite irange_one. cbn [for_each]. rewrite genHostName_one. fold hn sw.
    assert (Hbody : (addHost hn ∅
                       ≫= fun host => addLink host sw None None ∅;; mret tt)
                      s1 = (s3, Ok tt)).
    { rewrite (bind_Ok _ _ _ _ _ Hadd2), (bind_Ok _ _ _ _ _ Hlink).
      reflexivity. }
    rewrite (bind_Ok _ _ _ _ _ Hbody). reflexivity. }
  split; [rewrite E; exact Hhopts|]. split; [rewrite E; exact Hsopts|].
  split.
  { intros x Hx1 Hx2. split.
    - rewrite Hinfo. subst s2 s1. proj_simpl.
      now rewrite !lookup_insert_ne by congruence.
    - rewrite Htab, !decide_False by assumption. apply Htab2. }
  split.
  { exists (Some swinfo). rewrite Hinfo. split; [exact Hn2|].
    apply info_flag_inserted. }
  split.
  - rewrite Htab, decide_False by congruence.
    rewrite decide_True by reflexivity. now rewrite Htab2, Hh0.
  - rewrite Htab, decide_True by reflexivity.
    rewrite decide_False by congruence. now rewrite Htab2, Hs0.
Qed.

Lemma lin_table_old (i j : Z) :
  j < i -> lin_table (i + 1) j = lin_table i j.
Proof.
  intros H. unfold lin_table.
  destruct (Z.ltb_spec j i), (Z.ltb_spec j (i + 1)); try lia. reflexivity.
Qed.

Lemma lin_table_prev (i : Z) :
  lin_table (i + 1) i =
    <[switch_name (i + 1) := if i =? 1 then 2 else 3]> (lin_table i i).
Proof.
  unfold lin_table. rewrite Z.ltb_irrefl.
  destruct (Z.ltb_spec i (i + 1)); [reflexivity | lia].
Qed.

Lemma lin_table_new (m : Z) :
  2 <= m ->
  lin_table m m = <[switch_name (m - 1) := 2]> {[ host_name m := 1 ]}.
Proof.
  intros H. unfold lin_table. rewrite Z.ltb_irrefl.
  destruct (Z.leb_spec 2 m); [reflexivity | lia].
Qed.

Lemma lin_table_first : lin_table 1 1 = {[ host_name 1 := 1 ]}.
Proof. reflexivity. Qed.

(** The link from the switch [m] to the switch before it. *)
Lemma chain_uplink (a : nat) (s s3 : Topo.t) :
  (1 <= a)%nat ->
  lin_inv ho so a s ->
  let m := 1 + Z.of_nat a in
  hopts s3 = ho -> sopts s3 = so ->
  (forall x, x <> switch_name m -> x <> host_name m ->
     node_info s3 !! x = node_info s !! x /\
     port_table s3 x = port_table s x) ->
  (exists isw,
      node_info s3 !! switch_name m = Some isw /\
      info_flag "isSwitch" isw = true) ->
  port_table s3 (host_name m) = {[ switch_name m := host_base ho ]} ->
  port_table s3 (switch_name m) = {[ host_name m := 1 ]} ->
  exists s4,
    addLink (switch_name m) (switch_name (Z.of_nat a)) None None ∅ s3 =
      (s4, Ok (sorted_pair (switch_name m) (switch_name (Z.of_nat a)))) /\
    lin_inv ho so (S a) s4.
Proof.
  intros Ha (_ & _ & Hdone & Htodo) m Hh3 Hs3 Hother (iswm & Hnm & Hfm)
    Hthm Htsm.
  set (swm := switch_name m) in *. set (swa := switch_name (Z.of_nat a)).
  assert (Hma : swm <> swa).
  { intros E. apply switch_name_inj in E. subst m. lia. }
  assert (Hah : swa <> host_name m) by apply switch_not_host.
  destruct (Hdone (Z.of_nat a) ltac:(lia)) as ((iswa & Hna & Hfa) & _ & Htsa).
  fold swa in Hna, Htsa.
  destruct (Hother swa ltac:(congruence) Hah) as [Hna3 Hta3].
  rewrite Hna in Hna3. rewrite Htsa in Hta3.
  destruct (addLink_tables s3 swm swa None None ∅ _ _ Hnm Hna3)
    as (Hout & Hinfo & Htab & _).
  assert (Hsp : fst (link_ports s3 swm swa None None) = 2).
  { unfold link_ports, port_base. cbn [fst default].
    rewrite neighbors_recorded_table, Htsm, Hnm, Hfm, map_size_singleton.
    reflexivity. }
  assert (Hdp : snd (link_ports s3 swm swa None None) =
                if Z.of_nat a =? 1 then 2 else 3).
  { unfold link_ports, port_base. cbn [snd default].
    rewrite neighbors_recorded_table, Hta3, Hna3, Hfa.
    apply lin_table_last_size. lia. }
  rewrite Hsp, Hdp in Htab.
  destruct (addLink swm swa None None ∅ s3) as [s4 out] eqn:Hlink.
  destruct (addLink_state s3 swm swa None None ∅) as (P & L & d & E).
  rewrite Hlink in E.
  cbn [state_of outcome fst snd] in Hout, Hinfo, Htab, E. subst out.
  exists s4. split; [reflexivity|].
  assert (Hsucc : Z.of_nat (S a) = Z.of_nat a + 1) by lia.
  assert (Hm : m = Z.of_nat a + 1) by (subst m; lia).
  unfold lin_inv.
  split; [rewrite E; exact Hh3|]. split; [rewrite E; exact Hs3|]. split.
  - intros j Hj. rewrite Hinfo, Hsucc.
    destruct (decide (j = m)) as [->|Hjm].
    + split; [exists iswm; auto|]. split.
      * rewrite Htab, !decide_False
          by (intros E'; symmetry in E'; exact (switch_not_host _ _ E')).
        exact Hthm.
      * fold swm. rewrite Htab, decide_False by exact Hma.
        rewrite decide_True by reflexivity. rewrite Htsm.
        rewrite <- Hm, lin_table_new by (subst m; lia).
        subst swa. do 2 f_equal. subst m. lia.
    + assert (Hja : 1 <= j <= Z.of_nat a) by (subst m; lia).
      destruct (Hdone j Hja) as ((iswj & Hnj & Hfj) & Hthj & Htsj).
      assert (Hsj : switch_name j <> swm).
      { intros E'. apply switch_name_inj in E'. contradiction. }
      assert (Hhj : host_name j <> host_name m).
      { intros E'. apply host_name_inj in E'. contradiction. }
      destruct (Hother (switch_name j) Hsj (switch_not_host _ _))
        as [Hn3 Ht3].
      destruct (Hother (host_name j)
                  (fun E' => switch_not_host _ _ (eq_sym E')) Hhj)
        as [_ Hth3].
      split; [exists iswj; rewrite Hn3; auto|]. split.
      * rewrite Htab, !decide_False
          by (intros E'; symmetry in E'; exact (switch_not_host _ _ E')).
        now rewrite Hth3.
      * rewrite Htab. destruct (decide (switch_name j = swa)) as [Ej|Ej].
        -- apply switch_name_inj in Ej. subst j.
           rewrite decide_False by exact Hma.
           rewrite Hta3, lin_table_prev. fold swa. rewrite <- Hm. reflexivity.
        -- rewrite decide_False by exact Hsj.
           rewrite Ht3, Htsj. symmetry. apply lin_table_old.
           assert (j <> Z.of_nat a) by (intros ->; now apply Ej). lia.
  - intros j Hj.
    assert (Hjm : j <> m) by (subst m; lia).
    assert (Hja : Z.of_nat a < j) by lia.
    destruct (Htodo j Hja) as [Hthj Htsj].
    assert (Hsj : switch_name j <> swm).
    { intros E'. apply switch_name_inj in E'. contradiction. }
    assert (Hsja : switch_name j <> swa).
    { intros E'. apply switch_name_inj in E'. lia. }
    assert (Hhj : host_name j <> host_name m).
    { intros E'. apply host_name_inj in E'. contradiction. }
    destruct (Hother (switch_name j) Hsj (switch_not_host _ _)) as [_ Ht3].
    destruct (Hother (host_name j)
                (fun E' => switch_not_host _ _ (eq_sym E')) Hhj)
      as [_ Hth3].
    split.
    + rewrite Htab, !decide_False
        by (intros E'; symmetry in E'; exact (switch_not_host _ _ E')).
      now rewrite Hth3.
    + rewrite Htab, !decide_False by assumption. now rewrite Ht3.
Qed.

(** The switch 1, which has no switch before it. *)
Lemma chain_first (s s3 : Topo.t) :
  lin_inv ho so 0 s ->
  hopts s3 = ho -> sopts s3 = so ->
  (forall x, x <> switch_name 1 -> x <> host_name 1 ->
     node_info s3 !! x = node_info s !! x /\
     port_table s3 x = port_table s x) ->
  (exists isw,
      node_info s3 !! switch_name 1 = Some isw /\
      info_flag "isSwitch" isw = true) ->
  port_table s3 (host_name 1) = {[ switch_name 1 := host_base ho ]} ->
  port_table s3 (switch_name 1) = {[ host_name 1 := 1 ]} ->
  lin_inv ho so 1 s3.
Proof.
  intros (_ & _ & _ & Htodo) Hh3 Hs3 Hother Hn1 Hth Hts.
  unfold lin_inv. split; [exact Hh3|]. split; [exact Hs3|]. split.
  - intros j Hj. assert (j = 1) as -> by lia.
    split; [exact Hn1|]. split; [exact Hth|].
    change (Z.of_nat 1) with 1. now rewrite lin_table_first.
  - intros j Hj. change (Z.of_nat 1) with 1 in Hj.
    destruct (Htodo j ltac:(simpl; lia)) as [Hthj Htsj].
    assert (Hsj : switch_name j <> switch_name 1).
    { intros E'. apply switch_name_inj in E'. lia. }
    assert (Hhj : host_name j <> host_name 1).
    { intros E'. apply host_name_inj in E'. lia. }
    destruct (Hother (switch_name j) Hsj (switch_not_host _ _)) as [_ Ht3].
    destruct (Hother (host_name j)
                (fun E' => switch_not_host _ _ (eq_sym E')) Hhj)
      as [_ Hth3].
    now rewrite Hth3, Ht3.
Qed.

(** The loop of [LinearTopo] with one host for each switch, over the
    switches [a + 1 .. a + n]; [lastSwitch] is the switch [a], if any. *)
Lemma chain_loop (n a : nat) (s : Topo.t) :
  lin_inv ho so a s ->
  exists s',
    linear_loop 1 (map (fun i => 1 + Z.of_nat i) (seq a n))
      (match a with
       | O => None
       | S _ => Some (switch_name (Z.of_nat a))
       end) s = (s', Ok tt) /\
    lin_inv ho so (a + n) s'.
Proof.
  revert a s. induction n as [|n IH]; intros a s Hinv.
  - exists s. split; [reflexivity|]. now rewrite Nat.add_0_r.
  - destruct (chain_switch a s Hinv)
      as (s1 & s3 & Hadd & Hfor & Hh3 & Hs3 & Hother & Hnm & Hthm & Htsm).
    cbv zeta in *.
    assert (Hnext : exists s4,
      match a with
      | O => mret tt
      | S _ =>
          if negb (String.eqb (switch_name (Z.of_nat a)) "")
          then addLink (switch_name (1 + Z.of_nat a))
                 (switch_name (Z.of_nat a)) None None ∅;; mret tt
          else mret tt
      end s3 = (s4, Ok tt) /\
      lin_inv ho so (S a) s4).
    { destruct a as [|a'].
      - exists s3. split; [reflexivity|].
        now apply (chain_first s s3).
      - destruct (chain_uplink (S a') s s3 ltac:(lia) Hinv
                    Hh3 Hs3 Hother Hnm Hthm Htsm) as (s4 & Hlink & Hinv4).
        exists s4. split; [|exact Hinv4].
        rewrite switch_name_nonempty. cbn [negb].
        now rewrite (bind_Ok _ _ _ _ _ Hlink). }
    destruct Hnext as (s4 & Hup & Hinv4).
    destruct (IH (S a) s4 Hinv4) as (s' & Hloop & Hinv').
    exists s'. split; [|now rewrite Nat.add_succ_r].
    cbn [seq map linear_loop].
    rewrite (bind_Ok _ _ _ _ _ Hadd), (bind_Ok _ _ _ _ _ Hfor).
    assert (Hs : switch_name (1 + Z.of_nat a) = switch_name (Z.of_nat (S a))).
    { f_equal. lia. }
    destruct a as [|a'].
    + rewrite (bind_Ok _ _ _ _ _ Hup). rewrite Hs. exact Hloop.
    + rewrite (bind_Ok _ _ _ _ _ Hup). rewrite Hs. exact Hloop.
Qed.

Lemma chain_built (lo lro lso tpo hio : opts_t) (k : Z) :
  exists s',
    LinearTopo k 1 (init ho so lo lro lso tpo hio) = (s', Ok tt) /\
    lin_inv ho so (Z.to_nat k) s'.
Proof.
  assert (Hinv : lin_inv ho so 0 (init ho so lo lro lso tpo hio)).
  { unfold lin_inv. split; [reflexivity|]. split; [reflexivity|].
    split; [intros j Hj; simpl in Hj; lia|]. intros j _. split; reflexivity. }
  destruct (chain_loop (Z.to_nat (k + 1 - 1)) 0 _ Hinv) as (s' & Hloop & Hinv').
  exists s'. split; [exact Hloop|].
  replace (Z.to_nat k) with (0 + Z.to_nat (k + 1 - 1))%nat; [exact Hinv'|].
  f_equal. lia.
Qed.

End ChainFacts.

(** X15: [LinearTopo(k)] with one host for each switch, on a new object
    whose defaults for switches and hosts do not carry the flag of their
    role (nor the keys ["name"] and ["self"]), completes without an
    exception.  The host [i] is on port 1 of the switch [i], and the link
    from the switch [i] to the switch before it uses port 2 of the switch
    [i] and, on the switch before it, port 2 for the switch 1 and port 3
    for the others, which have their own link to the switch before them. *)
Theorem LinearTopo_ports (ho so lo lro lso tpo hio : opts_t) (k i : Z) :
  accepted "isHost" (or_default ∅ ho) ->
  accepted "isSwitch" (or_default ∅ so) ->
  let r := Shapes.LinearTopo k 1 (init ho so lo lro lso tpo hio) in
  let s := state_of r in
  outcome r = Ok tt /\
  (1 <= i <= k ->
   port (Shapes.host_name i) (Shapes.switch_name i) s =
     (s, Ok (Some (host_base ho, 1)))) /\
  (2 <= i <= k ->
   port (Shapes.switch_name i) (Shapes.switch_name (i - 1)) s =
     (s, Ok (Some (2, if i =? 2 then 2 else 3)))).
Proof.
  intros Hho Hso r s.
  destruct (chain_built ho so Hho Hso lo lro lso tpo hio k)
    as (s' & Hrun & (_ & _ & Hdone & _)).
  subst s r. rewrite Hrun. cbn [state_of outcome fst snd].
  split; [reflexivity|]. split.
  - intros Hi. destruct (Hdone i ltac:(lia)) as (_ & Hth & Hts).
    apply port_found; rewrite port_cell_table.
    + rewrite Hth. apply lookup_singleton_eq.
    + rewrite Hts. unfold lin_table.
      assert (Hne : forall x, Shapes.switch_name x <> Shapes.host_name i)
        by (intros x; apply switch_not_host).
      destruct (i <? Z.of_nat (Z.to_nat k)), (2 <=? i);
        rewrite ?lookup_insert_ne by apply Hne; apply lookup_singleton_eq.
  - intros Hi.
    destruct (Hdone i ltac:(lia)) as (_ & _ & Hts).
    destruct (Hdone (i - 1) ltac:(lia)) as (_ & _ & Htp).
    apply port_found; rewrite port_cell_table.
    + rewrite Hts. unfold lin_table.
      destruct (Z.leb_spec 2 i); [|lia].
      destruct (i <? Z.of_nat (Z.to_nat k)).
      * rewrite lookup_insert_ne
          by (intros E; apply switch_name_inj in E; lia).
        apply lookup_insert_eq.
      * apply lookup_insert_eq.
    + rewrite Htp. unfold lin_table.
      destruct (Z.ltb_spec (i - 1) (Z.of_nat (Z.to_nat k))); [|lia].
      replace (i - 1 + 1) with i by lia. rewrite lookup_insert_eq.
      f_equal. destruct (Z.eqb_spec (i - 1) 1), (Z.eqb_spec i 2); lia.
Qed.

Lemma LinearTopo_ports_witness :
  let r := Shapes.LinearTopo 4 1 (init ∅ ∅ ∅ ∅ ∅ ∅ ∅) in
  outcome r = Ok tt /\
  port "h3" "s3" (state_of r) = (state_of r, Ok (Some (0, 1))) /\
  port "s3" "s2" (state_of r) = (state_of r, Ok (Some (2, 3))).
Proof.
  intros r.
  assert (E1 : Shapes.host_name 3 = "h3") by (vm_compute; reflexivity).
  assert (E2 : Shapes.switch_name 3 = "s3") by (vm_compute; reflexivity).
  assert (E3 : Shapes.switch_name (3 - 1) = "s2") by (vm_compute; reflexivity).
  assert (E4 : host_base ∅ = 0) by (vm_compute; reflexivity).
  destruct (LinearTopo_ports ∅ ∅ ∅ ∅ ∅ ∅ ∅ 4 3) as (H1 & H2 & H3).
  - vm_compute. repeat split.
  - vm_compute. repeat split.
  - rewrite E1, E2, E4 in H2. rewrite E2, E3 in H3.
    split; [exact H1|]. split; [apply H2; lia | apply H3; lia].
Defined.

(** ** Link metadata *)

Section LinkInfoFacts.

Lemma sorted_pair_ordered (a b : string) :
  Natural.lt (snd (sorted_pair a b)) (fst (sorted_pair a b)) = false.
Proof.
  rewrite Topo_sorted_pair_eq. destruct (Natural.lt b a) eqn:E; cbn [fst snd].
  - now apply NaturalFacts.lt_asym.
  - exact E.
Qed.

Lemma call_link_info (k : string * string) (o : op) (s : Topo.t) :
  keeps_link_key k o = true ->
  link_info (state_of (call o s)) !! k = link_info s !! k.
Proof.
  intros Hk.
  assert (Hadder : forall name flag opts,
    link_info (state_of ((addNode_flagged name flag opts;; mret tt) s)) !! k =
    link_info s !! k).
  { intros name flag opts. rewrite bind_ret_state.
    now destruct (addNode_flagged_state name flag opts s) as (G & N & ->). }
  destruct o; try (apply Hadder); try reflexivity.
  - unfold call. rewrite bind_ret_state. cbn [keeps_link_key] in Hk.
    apply negb_true_iff, bool_decide_eq_false in Hk.
    destruct (node_info s !! node1) as [i1|] eqn:H1;
      [destruct (node_info s !! node2) as [i2|] eqn:H2|].
    + destruct (addLink_ok s node1 node2 port1 port2 opts i1 i2 H1 H2)
        as (P' & d' & -> & _).
      proj_simpl. now apply lookup_insert_ne.
    + now rewrite (addLink_unknown s _ _ port1 port2 opts (or_intror H2)).
    + now rewrite (addLink_unknown s _ _ port1 port2 opts (or_introl H1)).
  - cbn [keeps_link_key] in Hk.
    apply negb_true_iff, bool_decide_eq_false in Hk.
    unfold call, setlinkInfo. munfold. proj_simpl.
    now apply lookup_insert_ne.
Qed.

Lemma fold_link_info (k : string * string) (ops : list op)
  (st : Topo.t * list link_record) :
  forallb (keeps_link_key k) ops = true ->
  link_info (fst (fold_left step ops st)) !! k = link_info (fst st) !! k.
Proof.
  revert st. induction ops as [|o ops IH]; intros st Hall; [reflexivity|].
  cbn [forallb] in Hall. apply andb_true_iff in Hall as [Ho Hall].
  cbn [fold_left]. rewrite (IH _ Hall).
  assert (Hstep : fst (step st o) = state_of (call o (fst st))).
  { unfold step. destruct o; try reflexivity.
    now destruct (outcome (call (AddLink node1 node2 port1 port2 opts)
                             (fst st))). }
  rewrite Hstep. now apply call_link_info.
Qed.

End LinkInfoFacts.

(** X16: [addLink] on two nodes that have metadata returns as key the two
    names in natural order, stores under it the options it was given, or
    the default link options when it was given none, and leaves the other
    link metadata and all node metadata as they were; [linkInfo] with the
    names in the order of the call returns these options. *)
Theorem addLink_linkInfo (s : Topo.t) (node1 node2 : string)
  (port1 port2 : option Z) (opts : opts_t) :
  is_Some (node_info s !! node1) ->
  is_Some (node_info s !! node2) ->
  let r := addLink node1 node2 port1 port2 opts s in
  let key := sorted_pair node1 node2 in
  let stored := if dict_is_empty opts then lopts s else opts in
  outcome r = Ok key /\
  (key = (node1, node2) \/ key = (node2, node1)) /\
  Natural.lt (snd key) (fst key) = false /\
  linkInfo node1 node2 (state_of r) = (state_of r, Ok stored) /\
  (forall k, k <> key -> link_info (state_of r) !! k = link_info s !! k) /\
  node_info (state_of r) = node_info s.
Proof.
  intros [i1 H1] [i2 H2] r key stored.
  destruct (addLink_ok s node1 node2 port1 port2 opts i1 i2 H1 H2)
    as (P' & d' & Hrun & _).
  fold key in Hrun. subst r. rewrite Hrun. proj_simpl.
  assert (Hstored : or_default opts (lopts s) = stored).
  { subst stored. unfold or_default, dict_is_empty.
    destruct (bool_decide (opts = ∅)) eqn:E1; [|reflexivity].
    destruct (bool_decide (lopts s = ∅)) eqn:E2; [|reflexivity].
    apply bool_decide_eq_true in E1, E2. cbn [negb andb]. congruence. }
  split; [reflexivity|]. split; [apply sorted_pair_cases|].
  split; [apply sorted_pair_ordered|]. split; [|split; [|reflexivity]].
  - unfold linkInfo. munfold. proj_simpl. fold key.
    now rewrite lookup_insert_eq, Hstored.
  - intros k Hk. now apply lookup_insert_ne.
Qed.

Lemma addLink_linkInfo_witness :
  let s := state_of (addSwitch "s2" ∅ (state_of (addSwitch "s10" ∅
             (init ∅ ∅ {["bw" := VInt 10]} ∅ ∅ ∅ ∅)))) in
  let r := addLink "s10" "s2" None None ∅ s in
  outcome r = Ok ("s2", "s10") /\
  linkInfo "s10" "s2" (state_of r) = (state_of r, Ok {["bw" := VInt 10]}).
Proof.
  intros s r.
  destruct (addLink_linkInfo s "s10" "s2" None None ∅)
    as (H1 & _ & _ & H4 & _).
  - vm_compute. eauto.
  - vm_compute. eauto.
  - split; [exact H1 | exact H4].
Defined.

(** X17: the metadata of a link changes only by [addLink] and
    [setlinkInfo] with the same key: after any other calls, [linkInfo]
    returns what it returned before, or raises [KeyError] as before. *)
Theorem linkInfo_frame (s : Topo.t) (a b : string) (later : list op) :
  forallb (keeps_link_key (sorted_pair a b)) later = true ->
  outcome (linkInfo a b (fst (run later s))) = outcome (linkInfo a b s).
Proof.
  intros Hlater.
  pose proof (fold_link_info _ later (s, []) Hlater) as H.
  fold (run later s) in H. cbn [fst] in H.
  set (s' := fst (run later s)) in *.
  unfold linkInfo. munfold. rewrite H.
  now destruct (link_info s !! sorted_pair a b).
Qed.

Lemma linkInfo_frame_witness :
  let later := [AddHost "h4" ∅; AddLink "h4" "s1" None None ∅;
                SetlinkInfo "h2" "s1" {["bw" := VInt 5]}] in
  outcome (linkInfo "h1" "s1" (fst (run later star))) = Ok ∅ /\
  outcome (linkInfo "h1" "h2" (fst (run later star))) = Raise KeyError.
Proof.
  intros later. split.
  - rewrite (linkInfo_frame star "h1" "s1" later); vm_compute; reflexivity.
  - rewrite (linkInfo_frame star "h1" "h2" later); vm_compute; reflexivity.
Defined.
